(** * YouTube-subtitle: the two subtitle pipelines of the server

    A shallow embedding of the request handlers of
    [src/sever/server.js] (route [/api/generate], the timed-document
    pipeline) and of the server part of [src/unnamed/part_000] (route
    [/api/subtitles], the plain pipeline with synthetic cues), and the
    properties the specification states about them. *)

From Stdlib Require Import String Ascii List NArith ZArith Lia Bool.
From Equations Require Import Equations.
Import ListNotations.

(** ** JavaScript strings

    A JavaScript string is a sequence of UTF-16 code units; the regular
    expressions of the source have no [u] flag, so they work on code
    units too. *)

Module JS.

Definition jsstring := list N.

(** An ASCII literal as a JavaScript string. *)
Definition js (s : string) : jsstring :=
  map N_of_ascii (list_ascii_of_string s).

Definition str_eqb (a b : jsstring) : bool :=
  if list_eq_dec N.eq_dec a b then true else false.

(** The double quote, which the literals of the source contain. *)
Definition dquote : jsstring := [34%N].

(** [WhiteSpace] and [LineTerminator] of ECMAScript: the characters that
    [\s] matches and that [String.prototype.trim] removes. *)
Definition is_space (c : N) : bool :=
  existsb (N.eqb c)
    [9; 10; 11; 12; 13; 32; 160; 5760; 8232; 8233; 8239; 8287; 12288; 65279]%N
  || ((8192 <=? c) && (c <=? 8202))%N.

Fixpoint dropWhile (p : N -> bool) (s : jsstring) : jsstring :=
  match s with
  | [] => []
  | c :: s' => if p c then dropWhile p s' else s
  end.

Fixpoint takeWhile (p : N -> bool) (s : jsstring) : jsstring :=
  match s with
  | [] => []
  | c :: s' => if p c then c :: takeWhile p s' else []
  end.

Definition trimStart (s : jsstring) : jsstring := dropWhile is_space s.
Definition trimEnd (s : jsstring) : jsstring := rev (dropWhile is_space (rev s)).

(** [s.trim()] *)
Definition trim (s : jsstring) : jsstring := trimEnd (trimStart s).

(** [s.startsWith(p)] *)
Fixpoint startsWith (p s : jsstring) : bool :=
  match p, s with
  | [], _ => true
  | _ :: _, [] => false
  | a :: p', b :: s' => (a =? b)%N && startsWith p' s'
  end.

(** [s.replace(/pat/g, '')] for a pattern [pat] that is a literal: the
    matches are found from left to right, the search resuming after the
    end of each match, and what is not matched is kept. *)
Equations? removeAll (pat s : jsstring) : jsstring by wf (length s) lt :=
  removeAll pat [] := [];
  removeAll pat (c :: s') with startsWith pat (c :: s') => {
    | true := removeAll pat (skipn (length pat - 1) s');
    | false := c :: removeAll pat s' }.
Proof.
  pose proof (length_skipn (length pat - 1) s'). lia.
Qed.

(** [s.includes(p)] *)
Fixpoint includes (p s : jsstring) : bool :=
  startsWith p s
  || match s with
     | [] => false
     | _ :: s' => includes p s'
     end.

(** [s.split(/\s+/)]: the pieces between the maximal runs of white
    space, with an empty first piece when [s] starts with white space
    and an empty last piece when it ends with white space; the empty
    string gives one empty piece.  [cur] is the piece being read and
    [in_ws] says that the last character read was white space. *)
Fixpoint split_go (in_ws : bool) (cur s : jsstring) : list jsstring :=
  match s with
  | [] => [cur]
  | c :: s' =>
      if is_space c
      then if in_ws then split_go true cur s' else cur :: split_go true [] s'
      else split_go false (cur ++ [c]) s'
  end.

Definition split_ws (s : jsstring) : list jsstring := split_go false [] s.

(** [a.slice(from, to)] on an array, for indices within [0 .. 2^53]. *)
Definition slice {A} (a : list A) (from to : nat) : list A :=
  firstn (to - from) (skipn from a).

(** [a.join(sep)] as ECMAScript defines it: a loop over the indices [k]
    that appends the separator when [k > 0] and then the element. *)
Fixpoint join_from (sep R : jsstring) (k : nat) (a : list jsstring) : jsstring :=
  match a with
  | [] => R
  | x :: a' => join_from sep ((if Nat.eqb k 0 then R else R ++ sep) ++ x) (S k) a'
  end.

Definition join (sep : jsstring) (a : list jsstring) : jsstring :=
  join_from sep [] 0 a.

End JS.

Import JS.

(** ** Handlers, external calls and responses

    A handler runs against its collaborators, which are functions from
    the arguments of a call to what the call returns or throws.  Each
    call over the network is written to a log, in the order the handler
    issues them; a handler either goes on with a value or has sent its
    response. *)

Module Handler.

Inductive call :=
| GetSubtitles (videoID lang : jsstring)   (* youtube-captions-scraper *)
| GetInfo (videoId : jsstring)             (* ytdl-core *)
| GenerateContent (prompt : jsstring).     (* the Gemini API *)

Inductive js_result (A : Type) :=
| Returns (a : A)
| Throws (message : jsstring).
Arguments Returns {A} a.
Arguments Throws {A} message.

Section Monad.

Variable R : Type.   (* the responses of the route *)

Inductive step (A : Type) :=
| Next (a : A)
| Sent (r : R).
Arguments Next {A} a.
Arguments Sent {A} r.

Definition handler (A : Type) : Type := list call -> step A * list call.

Definition ret {A} (a : A) : handler A := fun log => (Next a, log).

(** [return res.status(..).json(..)] *)
Definition send {A} (r : R) : handler A := fun log => (Sent r, log).

Definition bind {A B} (m : handler A) (k : A -> handler B) : handler B :=
  fun log =>
    match m log with
    | (Next a, log') => k a log'
    | (Sent r, log') => (Sent r, log')
    end.

(** A synchronous expression inside [try]: what it throws goes to the
    [catch] block, which responds. *)
Definition attempt {A} (catch : jsstring -> R) (res : js_result A) : handler A :=
  match res with
  | Returns a => ret a
  | Throws e => send (catch e)
  end.

(** [await] of an external call inside [try]. *)
Definition await {A} (catch : jsstring -> R) (c : call) (res : js_result A)
  : handler A :=
  fun log => attempt catch res (log ++ [c]).

(** The response of a handler and the calls it has issued. *)
Definition run (h : handler R) : R * list call :=
  match h [] with
  | (Next r, log) => (r, log)
  | (Sent r, log) => (r, log)
  end.

End Monad.

Arguments Next {R A} a.
Arguments Sent {R A} r.
Arguments ret {R A} a.
Arguments send {R A} r.
Arguments bind {R A B} m k.
Arguments attempt {R A} catch res.
Arguments await {R A} catch c res.
Arguments run {R} h.

Definition is_translation (c : call) : bool :=
  match c with
  | GenerateContent _ => true
  | _ => false
  end.

(** A request-body field that the handler tests with [!field]: absent, or
    a string, which is falsy when empty. *)
Definition falsy (field : option jsstring) : bool :=
  match field with
  | None | Some [] => true
  | Some (_ :: _) => false
  end.

(** The string in a field that is not falsy. *)
Definition string_of (field : option jsstring) : jsstring :=
  match field with
  | Some s => s
  | None => []
  end.

End Handler.

Import Handler.

Notation "x <- m ;; k" := (bind m (fun x => k))
  (at level 61, m at next level, right associativity).

Definition nl : jsstring := [10%N].

(** ** [src/sever/server.js]: POST /api/generate *)

Module Generate.

Record request := { youtubeUrl : option jsstring; language : option jsstring }.

Record caption := { text : jsstring; start : jsstring; dur : jsstring }.

Inductive payload :=
| JsonMessage (message : jsstring)
| JsonMessageDetails (message details : jsstring)
| TextVtt (content : jsstring).   (* Content-Type: text/vtt; charset=utf-8 *)

Record response := { status : N; body : payload }.

(** [[^&?]] *)
Definition id_char (c : N) : bool := negb (c =? 38)%N && negb (c =? 63)%N.

(** One alternative of the prefix, then the greedy group [([^&?]+)]. *)
Definition group_after (prefix s : jsstring) : option jsstring :=
  if startsWith prefix s
  then match takeWhile id_char (skipn (length prefix) s) with
       | [] => None
       | g => Some g
       end
  else None.

(** [/(?:v=|youtu\.be\/)([^&?]+)/] tried at the start of [s]: the
    capture group when it matches there. *)
Definition match_here (s : jsstring) : option jsstring :=
  match group_after (js "v=") s with
  | Some g => Some g
  | None => group_after (js "youtu.be/") s
  end.

(** [youtubeUrl.match(...)]: the leftmost match; the result is the
    capture group [videoIDMatch[1]], never empty. *)
Fixpoint videoIDMatch (s : jsstring) : option jsstring :=
  match match_here s with
  | Some g => Some g
  | None => match s with
            | [] => None
            | _ :: s' => videoIDMatch s'
            end
  end.

(** [captions.map(c => c.text).join(' ')] *)
Definition transcript (captions : list caption) : jsstring :=
  join (js " ") (map text captions).

Definition prompt (languageName transcript : jsstring) : jsstring :=
  nl ++
  js "            You are a professional subtitle translator and formatter." ++
  nl ++
  js "            Your task is to translate the following English transcript into " ++
  languageName ++
  js " and then format the translation as a WebVTT (.vtt) file." ++
  nl ++
  js "            " ++
  nl ++
  js "            RULES:" ++
  nl ++
  js "            - The final output MUST strictly be a valid VTT file format, starting with " ++
  dquote ++ js "WEBVTT" ++ dquote ++
  js " on the first line." ++
  nl ++
  js "            - Do not include any extra text, explanations, or comments outside of the VTT content itself." ++
  nl ++
  js "            - Break the translated text into logical subtitle cues. Each cue should be a reasonable length for reading." ++
  nl ++
  js "            - Create timestamps for each cue in the format HH:MM:SS.mmm --> HH:MM:SS.mmm." ++
  nl ++
  js "            - A typical cue duration is between 2 and 7 seconds." ++
  nl ++
  js "            - Timestamps must be sequential and must not overlap. Start the very first cue at 00:00:00.000." ++
  nl ++
  nl ++
  js "            Here is the English transcript to translate and format:" ++
  nl ++
  js "            ---" ++
  nl ++
  js "            " ++
  transcript ++
  nl ++
  js "            ---" ++
  nl ++
  js "        ".

Definition fence : jsstring := js "```".
Definition fence_vtt : jsstring := js "```vtt" ++ nl.
Definition WEBVTT : jsstring := js "WEBVTT".

(** Lines 79 to 82: the clean-up of the text the model returned. *)
Definition cleaned (text : jsstring) : jsstring :=
  trim (removeAll fence (removeAll fence_vtt text)).

Definition vttContent (text : jsstring) : jsstring :=
  let vttContent := cleaned text in
  if startsWith WEBVTT vttContent
  then vttContent
  else WEBVTT ++ nl ++ nl ++ vttContent.

(** The number of backticks a string starts with; the removal of the
    fences leaves this number modulo 3 (see [backticks_removeAll]). *)
Fixpoint backticks (s : jsstring) : nat :=
  match s with
  | c :: s' => if (c =? 96)%N then S (backticks s') else 0
  | [] => 0
  end.

Section Route.

(** The collaborators. *)
Variable getSubtitles : jsstring -> jsstring -> js_result (option (list caption)).
Variable displayNameOf : jsstring -> js_result jsstring.
Variable generateContent : jsstring -> js_result jsstring.

(** The [catch] block. *)
Definition catch (message : jsstring) : response :=
  {| status := 500;
     body := JsonMessageDetails (js "An internal server error occurred.") message |}.

Definition generate (req : request) : handler response response :=
  if falsy (youtubeUrl req) || falsy (language req)
  then send {| status := 400;
               body := JsonMessage (js "Missing youtubeUrl or language in request body.") |}
  else
    let youtubeUrl := string_of (youtubeUrl req) in
    let language := string_of (language req) in
    match videoIDMatch youtubeUrl with
    | None =>
        send {| status := 400; body := JsonMessage (js "Invalid YouTube URL format.") |}
    | Some videoID =>
        captions <- await catch (GetSubtitles videoID (js "en"))
                      (getSubtitles videoID (js "en")) ;;
        match captions with
        | None | Some [] =>
            send {| status := 404;
                    body := JsonMessage (js "No English subtitles found for this video. Cannot generate translation.") |}
        | Some captions =>
            let transcript := transcript captions in
            languageName <- attempt catch (displayNameOf language) ;;
            let prompt := prompt languageName transcript in
            text <- await catch (GenerateContent prompt) (generateContent prompt) ;;
            ret {| status := 200; body := TextVtt (vttContent text) |}
        end
    end.

Definition respond (req : request) : response * list call := run (generate req).

End Route.

(** A request that has its two fields and a link with a video
    identifier in it. *)
Definition accepted (req : request) (videoID : jsstring) : Prop :=
  falsy (youtubeUrl req) = false /\
  falsy (language req) = false /\
  videoIDMatch (string_of (youtubeUrl req)) = Some videoID.

End Generate.

(** ** [src/unnamed/part_000], server part: POST /api/subtitles *)

Module Subtitles.

Record request := { videoId : option jsstring; language : option jsstring }.

(** What the handler reads of [videoInfo.videoDetails]. *)
Record videoDetails := { title : jsstring; lengthSeconds : jsstring }.

Record cue := { text : jsstring; start : Z; end_ : Z }.

Inductive payload :=
| JsonError (error : jsstring)
| JsonSubtitles (subtitles : list cue).

Record response := { status : N; body : payload }.

(** The numbers [parseInt] returns: [NaN], or an integer with its sign
    (zero has one too). *)
Inductive number :=
| NaN
| Int (negative : bool) (magnitude : N).

Definition is_digit (c : N) : bool := ((48 <=? c) && (c <=? 57))%N.

Definition digits_value (ds : jsstring) : N :=
  fold_left (fun acc d => (10 * acc + (d - 48))%N) ds 0%N.

(** [parseInt(s, 10)]: leading white space is skipped, then a sign,
    then the digits up to the first other character; [NaN] when there
    is no digit. *)
Definition parseInt (s : jsstring) : number :=
  let inputString := trimStart s in
  let '(negative, rest) :=
    match inputString with
    | c :: rest => if (c =? 45)%N then (true, rest)
                   else if (c =? 43)%N then (false, rest)
                   else (false, inputString)
    | [] => (false, inputString)
    end in
  match takeWhile is_digit rest with
  | [] => NaN
  | digits => Int negative (digits_value digits)
  end.

(** The value of [n / d] for an array length [n]: the division is not
    guarded, and of its result only the kind matters here (the handler
    does not read it): a ratio is kept as its two operands. *)
Inductive quotient :=
| QNaN
| QInfinity (negative : bool)
| QRatio (negative : bool) (numerator denominator : N).

Definition divide (n : nat) (d : number) : quotient :=
  match d with
  | NaN => QNaN
  | Int negative 0%N => if Nat.eqb n 0 then QNaN else QInfinity negative
  | Int negative m => QRatio negative (N.of_nat n) m
  end.

Definition placeholder : jsstring :=
  nl ++
  js "            Hello everyone and welcome to this video tutorial. In this segment, we will be discussing the fundamental concepts of full-stack web development. First, we will cover the basics of a client-server architecture. On the client side, we use languages like HTML, CSS, and JavaScript. On the server side, we use frameworks like Node.js and Express to handle requests and data. This separation is crucial for building scalable and maintainable applications. Thank you for watching and stay tuned for more!" ++
  nl ++
  js "        ".

Definition prompt (language videoTitle : jsstring) : jsstring :=
  nl ++
  js "            Translate the following English transcript into " ++
  language ++
  js "." ++
  nl ++
  js "            Make sure the translation is context-aware and sounds natural." ++
  nl ++
  js "            The original video is titled " ++
  dquote ++ videoTitle ++ dquote ++
  js "." ++
  nl ++
  js "            " ++
  nl ++
  js "            Original Transcript:" ++
  nl ++
  js "            " ++
  placeholder ++
  nl ++
  js "        ".

(** [words.slice(wordIndex, wordIndex + 5).join(' ')] *)
Definition subtitleText (words : list jsstring) (wordIndex : nat) : jsstring :=
  join (js " ") (slice words wordIndex (wordIndex + 5)).

(** The [while] loop of lines 482 to 495, from a state
    [(wordIndex, timeOffset, subtitlesWithTimestamps)]. *)
Equations? loop (words : list jsstring) (wordIndex : nat) (timeOffset : Z)
    (subtitlesWithTimestamps : list cue) : list cue
    by wf (length words - wordIndex) lt :=
  loop words wordIndex timeOffset subs with lt_dec wordIndex (length words) => {
    | right _ := subs;
    | left _ with str_eqb (trim (subtitleText words wordIndex)) [] => {
      | true := loop words (wordIndex + 5) timeOffset subs;
      | false :=
          loop words (wordIndex + 5) (timeOffset + 2)
            (subs ++ [ {| text := subtitleText words wordIndex;
                          start := timeOffset;
                          end_ := timeOffset + 2 |} ]) } }.
Proof. all: lia. Qed.

Definition words (translatedText : jsstring) : list jsstring :=
  split_ws translatedText.

Definition wordsPerSecond (translatedText : jsstring) (videoDuration : number)
  : quotient :=
  divide (length (words translatedText)) videoDuration.

Definition subtitlesWithTimestamps (translatedText : jsstring) : list cue :=
  loop (words translatedText) 0 0 [].

(** A relation that holds between every cue and the next one. *)
Fixpoint adjacent (R : cue -> cue -> Prop) (cues : list cue) : Prop :=
  match cues with
  | c :: (c' :: _) as rest => R c c' /\ adjacent R rest
  | _ => True
  end.

(** Cues of two seconds each, back to back from the offset [t]. *)
Fixpoint timed_from (t : Z) (cues : list cue) : Prop :=
  match cues with
  | [] => True
  | c :: rest => start c = t /\ end_ c = (t + 2)%Z /\ timed_from (t + 2) rest
  end.

(** A word: a piece with a first character, which is not white space. *)
Definition word (w : jsstring) : Prop :=
  match w with
  | [] => False
  | c :: _ => is_space c = false
  end.

(** The cue of a group of words at an offset. *)
Definition cue_of (group : list jsstring) (t : Z) : cue :=
  {| text := join (js " ") group; start := t; end_ := (t + 2)%Z |}.

Section Route.

(** The collaborators. *)
Variable getInfo : jsstring -> js_result videoDetails.
Variable generateContent : jsstring -> js_result jsstring.

(** The [catch] block. *)
Definition catch (message : jsstring) : response :=
  {| status := 500;
     body := JsonError (js "Failed to generate subtitles. Please check the video link and try again.") |}.

Definition subtitles (req : request) : handler response response :=
  if falsy (videoId req) || falsy (language req)
  then send {| status := 400;
               body := JsonError (js "Video ID and language are required.") |}
  else
    let videoId := string_of (videoId req) in
    let language := string_of (language req) in
    videoInfo <- await catch (GetInfo videoId) (getInfo videoId) ;;
    let videoTitle := title videoInfo in
    let videoDuration := parseInt (lengthSeconds videoInfo) in
    let prompt := prompt language videoTitle in
    translatedText <- await catch (GenerateContent prompt) (generateContent prompt) ;;
    let wordsPerSecond := wordsPerSecond translatedText videoDuration in
    ret {| status := 200;
           body := JsonSubtitles (subtitlesWithTimestamps translatedText) |}.

Definition respond (req : request) : response * list call := run (subtitles req).

End Route.

End Subtitles.


(** ** The clients: the language lists of the two dropdowns

    The only lists of languages in the repository; the servers do not
    read them. *)

Module Client.

(** [src/unnamed/part_000], first client (route /api/subtitles). *)
Definition languages : list jsstring :=
  [js "en"; js "es"; js "fr"; js "de"; js "ja"; js "zh"].

(** [src/unnamed/part_000], second client (route /api/generate). *)
Definition languages_generate : list jsstring :=
  [js "es"; js "fr"; js "de"; js "it"; js "pt"; js "ja"; js "ko"; js "zh-CN";
   js "hi"; js "ar"; js "ru"].

Definition listed (codes : list jsstring) (language : jsstring) : bool :=
  existsb (str_eqb language) codes.

End Client.

(** ** Sample collaborators and requests, for the concrete runs *)

Module Sample.

Definition link : jsstring := js "https://youtu.be/dQw4w9WgXcQ".
Definition id : jsstring := js "dQw4w9WgXcQ".

Definition generate_request (language : jsstring) : Generate.request :=
  {| Generate.youtubeUrl := Some link; Generate.language := Some language |}.

Definition subtitles_request (language : jsstring) : Subtitles.request :=
  {| Subtitles.videoId := Some id; Subtitles.language := Some language |}.

Definition captions : list Generate.caption :=
  [ {| Generate.text := js "never gonna"; Generate.start := js "0.5"; Generate.dur := js "1.2" |};
    {| Generate.text := js "give you up"; Generate.start := js "1.7"; Generate.dur := js "1.5" |} ].

(** A caption source that has [captions] for every video. *)
Definition getSubtitles (found : option (list Generate.caption))
  : jsstring -> jsstring -> js_result (option (list Generate.caption)) :=
  fun _ _ => Returns found.

(** [Intl.DisplayNames] on a well-formed tag it has no name for returns
    the tag. *)
Definition displayNameOf : jsstring -> js_result jsstring :=
  fun language => Returns language.

(** A model that answers [text] to every prompt. *)
Definition generateContent (text : jsstring) : jsstring -> js_result jsstring :=
  fun _ => Returns text.

(** Twenty-five words, with the white space a model may put between
    and after them. *)
Definition spanish_words : jsstring :=
  js "uno dos tres  cuatro cinco seis siete ocho nueve diez" ++ nl ++
  js "once doce trece catorce quince diecis veinte v1 v2 v3 v4 v5 v6 v7 v8".

Definition getInfo (lengthSeconds : jsstring)
  : jsstring -> js_result Subtitles.videoDetails :=
  fun _ => Returns {| Subtitles.title := js "A video";
                      Subtitles.lengthSeconds := lengthSeconds |}.

(** A timed document whose only cue ends before it starts. *)
Definition inverted_document : jsstring :=
  js "WEBVTT" ++ nl ++ nl ++
  js "00:00:05.000 --> 00:00:02.000" ++ nl ++
  js "hola".

(** A translated text of three words that reads as a timestamp line. *)
Definition timestamp_words : jsstring := js "00:00:01.000 --> 00:00:02.000".

(** A payload in fences, without the header. *)
Definition fenced_payload : jsstring :=
  js "```vtt" ++ nl ++
  js "00:00:00.000 --> 00:00:02.000" ++ nl ++
  js "hola" ++ nl ++
  js "```".

End Sample.

(** ** The specification's own words, where a claim compares them with
    the code *)

Module Spec.

(** Section 4.2: the fragments' text joined with single-space
    separators, in their order. *)
Fixpoint assemble (fragments : list jsstring) : jsstring :=
  match fragments with
  | [] => []
  | [t] => t
  | t :: rest => t ++ js " " ++ assemble rest
  end.

End Spec.

(** ** The wire format of the timed document

    The repository has no parser and no serializer of timed documents:
    [/api/generate] forwards the text of the model and [/api/subtitles]
    answers with JSON cues.  This module holds the wire grammar of
    section 6, the parsing step of section 4.5 and the serializer of
    section 4.6, as the specification words them. *)

Module Vtt.

(** Modelled from the spec: the [Cue] of section 3, for which the
    repository has no type of its own on the timed side.  An offset, a
    number of seconds with millisecond precision, is held as its number
    of milliseconds. *)
Record Cue := { text : jsstring; start_ms : N; end_ms : N }.

Definition arrow : jsstring := js " --> ".

Definition digit (n : N) : N := (48 + n mod 10)%N.

(** Modelled from the spec: the timestamp fields, missing from the
    repository.  They are zero-padded and of fixed width; the hour field
    has two digits, so that the grammar has no rendering of 100 hours or
    more (this one keeps the last two digits of the hours). *)
Definition pad2 (n : N) : jsstring := [digit (n / 10); digit n].
Definition pad3 (n : N) : jsstring := [digit (n / 100); digit (n / 10); digit n].

(** Modelled from the spec: the timestamp [HH:MM:SS.mmm] of an offset,
    missing from the repository. *)
Definition timestamp (ms : N) : jsstring :=
  (pad2 (ms / 3600000) ++ js ":" ++ pad2 ((ms / 60000) mod 60) ++ js ":"
   ++ pad2 ((ms / 1000) mod 60) ++ js "." ++ pad3 (ms mod 1000))%N.

Definition timing_line (c : Cue) : jsstring :=
  timestamp (start_ms c) ++ arrow ++ timestamp (end_ms c).

(** Modelled from the spec: the serializer of section 4.6, missing
    from the repository.  The header line, a blank line, then for each
    cue the timestamp line, the cue text and a blank line. *)
Definition block (c : Cue) : jsstring :=
  timing_line c ++ nl ++ text c ++ nl ++ nl.

Definition serialize (doc : list Cue) : jsstring :=
  js "WEBVTT" ++ nl ++ nl ++ concat (map block doc).

(** Modelled from the spec: the lines of a document, the pieces
    between line feeds (the repository splits no document into lines). *)
Fixpoint lines_go (cur s : jsstring) : list jsstring :=
  match s with
  | [] => [cur]
  | c :: s' => if (c =? 10)%N then cur :: lines_go [] s'
               else lines_go (cur ++ [c]) s'
  end.

Definition lines (s : jsstring) : list jsstring := lines_go [] s.

Definition is_digit (c : N) : bool := ((48 <=? c) && (c <=? 57))%N.

Definition value (ds : jsstring) : N :=
  fold_left (fun acc d => (10 * acc + (d - 48))%N) ds 0%N.

(** Modelled from the spec: the timestamp reader, missing from the
    repository.  The offset a timestamp [HH:MM:SS.mmm] stands for. *)
Definition parse_timestamp (s : jsstring) : option N :=
  match s with
  | [h1; h2; c1; m1; m2; c2; s1; s2; dot; f1; f2; f3] =>
      if forallb is_digit [h1; h2; m1; m2; s1; s2; f1; f2; f3]
         && (c1 =? 58)%N && (c2 =? 58)%N && (dot =? 46)%N
      then Some (((value [h1; h2] * 60 + value [m1; m2]) * 60 + value [s1; s2]) * 1000
                 + value [f1; f2; f3])%N
      else None
  | _ => None
  end.

(** Modelled from the spec: the timestamp-arrow pattern of sections
    4.5 and 6, missing from the repository.  A line that matches it, and
    its offsets. *)
Definition parse_timing (line : jsstring) : option (N * N) :=
  if startsWith arrow (skipn 12 line)
  then match parse_timestamp (firstn 12 line), parse_timestamp (skipn 17 line) with
       | Some s, Some e => Some (s, e)
       | _, _ => None
       end
  else None.

Definition blank (line : jsstring) : bool := forallb is_space line.

(** The cue that is open: its offsets and the lines of text read so far. *)
Definition open_cue : Type := N * N * list jsstring.

Definition close (o : option open_cue) : list Cue :=
  match o with
  | None => []
  | Some (s, e, ls) => [ {| text := join nl ls; start_ms := s; end_ms := e |} ]
  end.

(** Modelled from the spec: the parser of section 4.5, missing from
    the repository.  A timestamp line opens a new cue; the non-blank
    lines that follow, up to the next blank line or timestamp line, are
    its text, joined with a line break.  Lines outside a cue (the header
    among them) are passed over. *)
Fixpoint parse_lines (o : option open_cue) (ls : list jsstring) : list Cue :=
  match ls with
  | [] => close o
  | l :: ls' =>
      match parse_timing l with
      | Some (s, e) => close o ++ parse_lines (Some (s, e, [])) ls'
      | None =>
          if blank l then close o ++ parse_lines None ls'
          else match o with
               | Some (s, e, t) => parse_lines (Some (s, e, t ++ [l])) ls'
               | None => parse_lines None ls'
               end
      end
  end.

Definition parse (document : jsstring) : list Cue :=
  parse_lines None (lines document).

(** Modelled from the spec: the first check of section 4.5, which the
    repository does not have.  A cue whose start is not strictly before
    its end. *)
Definition inverted (c : Cue) : bool := (end_ms c <=? start_ms c)%N.

(** A cue of the synthesizer, whose offsets are whole seconds, as a cue
    of a timed document. *)
Definition of_synthesized (c : Subtitles.cue) : Cue :=
  {| text := Subtitles.text c;
     start_ms := Z.to_N (Subtitles.start c * 1000);
     end_ms := Z.to_N (Subtitles.end_ c * 1000) |}.

(** A line of cue text that the parser reads back as text: not blank
    and not a timestamp line. *)
Definition text_line (line : jsstring) : bool :=
  negb (blank line)
  && match parse_timing line with
     | None => true
     | Some _ => false
     end.

(** A cue the wire grammar can carry: offsets below 100 hours, and a
    text that is empty or made of text lines. *)
Definition carried (c : Cue) : bool :=
  ((start_ms c <? 360000000) && (end_ms c <? 360000000))%N
  && match text c with
     | [] => true
     | _ => forallb text_line (lines (text c))
     end.

End Vtt.

(** ** [src/unnamed/part_000], the two pages: what they make of a link *)

Module Page.

(** A regular expression without repetition: one character class per
    position. *)
Definition pattern : Type := list (N -> bool).

Definition chr (a : ascii) : N -> bool := N.eqb (N_of_ascii a).

(** A literal. *)
Definition lit (s : string) : pattern := map chr (list_ascii_of_string s).

(** [LineTerminator]: what [.] does not match. *)
Definition is_line_terminator (c : N) : bool :=
  existsb (N.eqb c) [10; 13; 8232; 8233]%N.

(** [.] *)
Definition dot (c : N) : bool := negb (is_line_terminator c).

(** [\w] *)
Definition word_char (c : N) : bool :=
  ((48 <=? c) && (c <=? 57) || (65 <=? c) && (c <=? 90)
   || (97 <=? c) && (c <=? 122) || (c =? 95))%N.

(** The pattern tried at the start of [s]: what follows the match. *)
Fixpoint matches (p : pattern) (s : jsstring) : option jsstring :=
  match p, s with
  | [], _ => Some s
  | _ :: _, [] => None
  | f :: p', c :: s' => if f c then matches p' s' else None
  end.

(** Alternatives, in their order. *)
Fixpoint first_of (alternatives : list pattern) (s : jsstring) : option jsstring :=
  match alternatives with
  | [] => None
  | p :: rest => match matches p s with
                 | Some after => Some after
                 | None => first_of rest s
                 end
  end.

(** *** The first page (route /api/subtitles), [fetchSubtitles] *)

(** [[^&?\s]] *)
Definition link_char (c : N) : bool :=
  negb (c =? 38)%N && negb (c =? 63)%N && negb (is_space c).

(** [youtu(?:be\.com\/watch\?v=|\.be\/)([^&?\s]+)] at the start of [s]. *)
Definition core (s : jsstring) : option jsstring :=
  match first_of [lit "youtube.com/watch?v="; lit "youtu.be/"] s with
  | Some after => match takeWhile link_char after with
                  | [] => None
                  | g => Some g
                  end
  | None => None
  end.

(** [(?:www\.)?] and the rest: with the group first, without it when
    the rest does not match after it. *)
Definition www (s : jsstring) : option jsstring :=
  match (match matches (lit "www.") s with
         | Some after => core after
         | None => None
         end) with
  | Some g => Some g
  | None => core s
  end.

Definition after_scheme (scheme : string) (s : jsstring) : option jsstring :=
  match matches (lit scheme) s with
  | Some after => www after
  | None => None
  end.

(** [(?:https?:\/\/)?] and the rest, the longer choices first. *)
Definition urlRegex_here (s : jsstring) : option jsstring :=
  match after_scheme "https://" s with
  | Some g => Some g
  | None => match after_scheme "http://" s with
            | Some g => Some g
            | None => www s
            end
  end.

(** [youtubeLink.match(urlRegex)]: the leftmost match, and of it the
    group [match[1]]. *)
Fixpoint urlRegex (s : jsstring) : option jsstring :=
  match urlRegex_here s with
  | Some g => Some g
  | None => match s with
            | [] => None
            | _ :: s' => urlRegex s'
            end
  end.

(** The body [fetchSubtitles] posts to /api/subtitles; nothing is
    posted when the link does not match. *)
Definition fetchSubtitles (youtubeLink selectedLanguage : jsstring)
  : option Subtitles.request :=
  match urlRegex youtubeLink with
  | None => None
  | Some extractedVideoId =>
      Some {| Subtitles.videoId := Some extractedVideoId;
              Subtitles.language := Some selectedLanguage |}
  end.

(** *** The second page (route /api/generate), [getYouTubeID] *)

(** [(youtu.be\/|v\/|u\/\w\/|embed\/|watch\?v=|\&v=)] *)
Definition markers : list pattern :=
  [ lit "youtu" ++ [dot] ++ lit "be/";
    lit "v/";
    lit "u/" ++ [word_char] ++ lit "/";
    lit "embed/";
    lit "watch?v=";
    lit "&v=" ].

(** [^.*(...)]: the greedy [.*] leaves the marker at the last place
    where one matches with no line terminator before it. *)
Fixpoint last_marker (s : jsstring) : option jsstring :=
  match s with
  | [] => first_of markers []
  | c :: s' =>
      if dot c
      then match last_marker s' with
           | Some after => Some after
           | None => first_of markers s
           end
      else first_of markers s
  end.

(** [[^#\&\?]] *)
Definition id_class (c : N) : bool :=
  negb (c =? 35)%N && negb (c =? 38)%N && negb (c =? 63)%N.

(** [getYouTubeID(url)]: [match[2]] when it has 11 characters. *)
Definition getYouTubeID (url : jsstring) : option jsstring :=
  match last_marker url with
  | None => None
  | Some after =>
      let group := takeWhile id_class after in
      if Nat.eqb (length group) 11 then Some group else None
  end.

(** The body [handleSubmit] posts to /api/generate: the link as it was
    typed; nothing is posted when [getYouTubeID] finds no identifier. *)
Definition handleSubmit (url language : jsstring) : option Generate.request :=
  match getYouTubeID url with
  | None => None
  | Some _ =>
      Some {| Generate.youtubeUrl := Some url; Generate.language := Some language |}
  end.

(** A character of a video identifier: a letter, a digit, [_] or [-]. *)
Definition id_safe (c : N) : bool := word_char c || (c =? 45)%N.

End Page.

(** ** Further measures of the synthesizer *)

Module Measure.

(** The number of groups of five among [n] words. *)
Definition groups (n : nat) : nat := (n + 4) / 5.

(** A string that ends with a character that is not white space. *)
Definition ends_solid (s : jsstring) : Prop :=
  exists u d, s = u ++ [d] /\ is_space d = false.

(** A lower-case letter: the characters of a fence tag such as [vtt],
    [webvtt] or [text]. *)
Definition is_lower (c : N) : bool := ((97 <=? c) && (c <=? 122))%N.

(** The backtick. *)
Definition backtick : jsstring := js "`".

End Measure.

(** ** Texts of words, for the statements on the synthesizer *)

Module Text.

(** A word: not empty, and without white space. *)
Definition solid (w : jsstring) : Prop :=
  w <> [] /\ forallb (fun c => negb (is_space c)) w = true.

(** What separates two words: white space, and some of it. *)
Definition gap (s : jsstring) : Prop :=
  s <> [] /\ forallb is_space s = true.

(** The text of a first word and of further words, each after its
    separator. *)
Definition sentence (first : jsstring) (rest : list (jsstring * jsstring))
  : jsstring :=
  first ++ concat (map (fun p => fst p ++ snd p) rest).

(** A text of 25 words, as the statement on 25 words takes it: the
    words, what separates them, and the white space after the last
    one. *)
Definition of_25_words (first : jsstring) (rest : list (jsstring * jsstring))
    (trailing : jsstring) : Prop :=
  length rest = 24 /\
  solid first /\
  Forall (fun p => gap (fst p) /\ solid (snd p)) rest /\
  forallb is_space trailing = true.

(** Twenty-five words: the first one, and the others after their
    separators (spaces, two spaces, a line feed). *)
Definition sample_first : jsstring := js "uno".

Definition sample_rest : list (jsstring * jsstring) :=
  [ (js " ", js "dos"); (js " ", js "tres"); (js "  ", js "cuatro");
    (js " ", js "cinco"); (js " ", js "seis"); (js " ", js "siete");
    (js " ", js "ocho"); (js " ", js "nueve"); (js " ", js "diez");
    (nl, js "once"); (js " ", js "doce"); (js " ", js "trece");
    (js " ", js "catorce"); (js " ", js "quince"); (js " ", js "diecis");
    (js " ", js "veinte"); (js " ", js "v1"); (js " ", js "v2");
    (js " ", js "v3"); (js " ", js "v4"); (js " ", js "v5");
    (js " ", js "v6"); (js " ", js "v7"); (js " ", js "v8") ].

End Text.

(** ** [src/sever/server.js], the body of a request as it may come

    [express.json()] hands the handler any JSON value in a field, or no
    body at all.  Of a value the handler uses three things: whether it
    is a string, whether it is truthy, and (for the language, which
    [Intl.DisplayNames] converts) its conversion to a string. *)

Module Body.

Inductive value :=
| Missing                                 (* the key is absent: undefined *)
| Text (s : jsstring)                     (* a string *)
| Other (truthy : bool) (shown : jsstring).
    (* null, a boolean, a number, an array or an object: whether it is
       truthy, and String(value) *)

(** [!value] *)
Definition falsy (v : value) : bool :=
  match v with
  | Missing => true
  | Text [] => true
  | Text (_ :: _) => false
  | Other truthy _ => negb truthy
  end.

(** [String(value)] *)
Definition shown (v : value) : jsstring :=
  match v with
  | Missing => js "undefined"
  | Text s => s
  | Other _ s => s
  end.

Inductive received :=
| NoBody                                  (* req.body is undefined *)
| Fields (youtubeUrl language : value).

Section Route.

Import Generate.

Variable getSubtitles : jsstring -> jsstring -> js_result (option (list caption)).
Variable displayNameOf : jsstring -> js_result jsstring.
Variable generateContent : jsstring -> js_result jsstring.

(** Lines 28 to 88, for a link that is a string: the handler from the
    match of the link on. *)
Definition generate_from (youtubeUrl language : jsstring)
  : handler response response :=
  match videoIDMatch youtubeUrl with
  | None =>
      send {| status := 400; body := JsonMessage (js "Invalid YouTube URL format.") |}
  | Some videoID =>
      captions <- await catch (GetSubtitles videoID (js "en"))
                    (getSubtitles videoID (js "en")) ;;
      match captions with
      | None | Some [] =>
          send {| status := 404;
                  body := JsonMessage (js "No English subtitles found for this video. Cannot generate translation.") |}
      | Some captions =>
          let transcript := transcript captions in
          languageName <- attempt catch (displayNameOf language) ;;
          let prompt := prompt languageName transcript in
          text <- await catch (GenerateContent prompt) (generateContent prompt) ;;
          ret {| status := 200; body := TextVtt (vttContent text) |}
      end
  end.

(** The handler on any body.  [None]: the handler throws outside its
    [try] (line 21 on a body that is undefined, line 28 on a link that is
    truthy and not a string, which has no [match]) and sends nothing. *)
Definition generate_any (b : received) : option (handler response response) :=
  match b with
  | NoBody => None
  | Fields youtubeUrl language =>
      if falsy youtubeUrl || falsy language
      then Some (send {| status := 400;
                         body := JsonMessage (js "Missing youtubeUrl or language in request body.") |})
      else match youtubeUrl with
           | Text youtubeUrl => Some (generate_from youtubeUrl (shown language))
           | _ => None
           end
  end.

End Route.

(** The body of a request whose two fields are strings or absent. *)
Definition of_request (req : Generate.request) : received :=
  let field (f : option jsstring) :=
    match f with
    | None => Missing
    | Some s => Text s
    end in
  Fields (field (Generate.youtubeUrl req)) (field (Generate.language req)).

End Body.
(** * Properties *)

(** ** Strings *)

Section StringFacts.

Lemma removeAll_cons (pat : jsstring) (c : N) (s : jsstring) :
  removeAll pat (c :: s) =
  if startsWith pat (c :: s)
  then removeAll pat (skipn (length pat - 1) s)
  else c :: removeAll pat s.
Proof.
  simp removeAll. destruct (startsWith pat (c :: s)); reflexivity.
Qed.

Lemma startsWith_app (p s : jsstring) : startsWith p (p ++ s) = true.
Proof.
  induction p as [|a p IH]; simpl; [reflexivity|].
  now rewrite N.eqb_refl, IH.
Qed.

Lemma startsWith_spec (p s : jsstring) :
  startsWith p s = true <-> exists b, s = p ++ b.
Proof.
  split.
  - revert s. induction p as [|a p IH]; intros s H.
    + now exists s.
    + destruct s as [|c s]; simpl in H; [discriminate|].
      apply andb_prop in H. destruct H as [Hc Hs].
      apply N.eqb_eq in Hc. subst c.
      destruct (IH _ Hs) as [b ->]. now exists b.
  - intros [b ->]. apply startsWith_app.
Qed.

Lemma includes_unfold (p s : jsstring) :
  includes p s =
  startsWith p s || match s with [] => false | _ :: s' => includes p s' end.
Proof. destruct s; reflexivity. Qed.

Lemma includes_spec (p s : jsstring) :
  includes p s = true <-> exists a b, s = a ++ p ++ b.
Proof.
  split.
  - induction s as [|c s IH]; simpl; intros H.
    + rewrite orb_false_r in H. apply startsWith_spec in H.
      destruct H as [b Hb]. now exists [], b.
    + apply orb_prop in H. destruct H as [H|H].
      * apply startsWith_spec in H. destruct H as [b Hb]. now exists [], b.
      * destruct (IH H) as (a & b & ->). now exists (c :: a), b.
  - intros (a & b & ->). induction a as [|c a IH].
    + rewrite includes_unfold. simpl. now rewrite startsWith_app.
    + simpl. simpl in IH. rewrite IH. apply orb_true_r.
Qed.

(** A string has no occurrence of [p] when a string around it has none. *)
Lemma includes_inside (p a s b : jsstring) :
  includes p (a ++ s ++ b) = false -> includes p s = false.
Proof.
  intros H. destruct (includes p s) eqn:E; [|reflexivity].
  apply includes_spec in E. destruct E as (x & y & ->).
  assert (includes p (a ++ (x ++ p ++ y) ++ b) = true) as H'.
  { apply includes_spec. exists (a ++ x), (y ++ b).
    now rewrite <- !app_assoc. }
  congruence.
Qed.

Lemma dropWhile_suffix (f : N -> bool) (s : jsstring) :
  exists a, s = a ++ dropWhile f s.
Proof.
  induction s as [|c s [a IH]]; simpl.
  - now exists [].
  - destruct (f c).
    + exists (c :: a). simpl. now f_equal.
    + now exists [].
Qed.

Lemma trim_inside (s : jsstring) : exists a b, s = a ++ trim s ++ b.
Proof.
  unfold trim, trimEnd, trimStart.
  destruct (dropWhile_suffix is_space s) as [a Ha].
  destruct (dropWhile_suffix is_space (rev (dropWhile is_space s))) as [b Hb].
  exists a, (rev b).
  rewrite <- rev_app_distr, <- Hb, rev_involutive. exact Ha.
Qed.

Lemma includes_trim (p s : jsstring) :
  includes p s = false -> includes p (trim s) = false.
Proof.
  intros H. destruct (trim_inside s) as (a & b & E).
  rewrite E in H. now apply includes_inside in H.
Qed.

Lemma dropWhile_head (f : N -> bool) (s : jsstring) :
  match dropWhile f s with
  | [] => True
  | c :: _ => f c = false
  end.
Proof.
  induction s as [|c s IH]; simpl; [exact I|].
  destruct (f c) eqn:E; [exact IH | exact E].
Qed.

Lemma dropWhile_id (f : N -> bool) (s : jsstring) :
  match s with [] => True | c :: _ => f c = false end ->
  dropWhile f s = s.
Proof.
  destruct s as [|c s]; simpl; [reflexivity|]. now intros ->.
Qed.

(** A trimmed string does not start and does not end with white space. *)
Lemma trim_first (s : jsstring) :
  match trim s with [] => True | c :: _ => is_space c = false end.
Proof.
  unfold trim, trimEnd, trimStart.
  pose proof (dropWhile_head is_space s) as H.
  destruct (dropWhile is_space s) as [|c t] eqn:E; [exact I|].
  pose proof (dropWhile_head is_space (rev (c :: t))) as H'.
  destruct (dropWhile_suffix is_space (rev (c :: t))) as [a Ha].
  destruct (dropWhile is_space (rev (c :: t))) as [|d u]; [exact I|].
  apply (f_equal (@rev N)) in Ha. rewrite rev_involutive, rev_app_distr in Ha.
  destruct (rev (d :: u)) as [|e v] eqn:Er.
  - exact I.
  - simpl in Ha. now injection Ha as <- _.
Qed.

Lemma trim_last (s : jsstring) :
  match rev (trim s) with [] => True | c :: _ => is_space c = false end.
Proof.
  unfold trim, trimEnd. rewrite rev_involutive. apply dropWhile_head.
Qed.

(** [trim] leaves alone a string with no white space at either end. *)
Lemma trim_id (s : jsstring) :
  match s with [] => True | c :: _ => is_space c = false end ->
  match rev s with [] => True | c :: _ => is_space c = false end ->
  trim s = s.
Proof.
  intros H1 H2. unfold trim, trimEnd, trimStart.
  rewrite (dropWhile_id is_space s H1), (dropWhile_id is_space (rev s) H2).
  apply rev_involutive.
Qed.

Lemma trim_idempotent (s : jsstring) : trim (trim s) = trim s.
Proof. apply trim_id; [apply trim_first | apply trim_last]. Qed.

End StringFacts.

(** ** The clean-up of the timed document *)

Section Fences.

Import Generate.

Lemma fence_eq : fence = [96; 96; 96]%N.
Proof. reflexivity. Qed.

Lemma startsWith_fence (s : jsstring) :
  startsWith fence s = (3 <=? backticks s)%nat.
Proof.
  rewrite fence_eq.
  destruct s as [|a [|b [|c s]]]; cbn [startsWith backticks];
    try rewrite !(N.eqb_sym 96%N);
    repeat match goal with
           | |- context [(?x =? 96)%N] => destruct (x =? 96)%N
           end; reflexivity.
Qed.

Lemma removeAll_fence_cons (c : N) (s : jsstring) :
  removeAll fence (c :: s) =
  if startsWith fence (c :: s)
  then removeAll fence (skipn 2 s)
  else c :: removeAll fence s.
Proof. apply (removeAll_cons fence c s). Qed.

Lemma removeAll_fence_app (s : jsstring) :
  removeAll fence (fence ++ s) = removeAll fence s.
Proof.
  rewrite fence_eq at 2. cbn [app].
  rewrite removeAll_fence_cons, startsWith_fence.
  cbn [backticks]. rewrite N.eqb_refl. reflexivity.
Qed.

Lemma backticks_three (s : jsstring) :
  3 <= backticks s ->
  exists t, s = 96%N :: 96%N :: 96%N :: t /\ backticks s = 3 + backticks t.
Proof.
  destruct s as [|a [|b [|c t]]]; cbn [backticks];
    repeat match goal with
           | |- context [(?x =? 96)%N] => destruct (N.eqb_spec x 96)
           end; try lia.
  intros _. subst. exists t. split; [reflexivity | lia].
Qed.

(** Of a run of [n] backticks the removal leaves [n mod 3]. *)
Lemma backticks_removeAll (s : jsstring) :
  backticks (removeAll fence s) = backticks s mod 3.
Proof.
  remember (length s) as n eqn:Hn. revert s Hn.
  induction n as [n IH] using lt_wf_ind. intros s Hn.
  destruct s as [|c s]; [reflexivity|].
  rewrite removeAll_fence_cons, startsWith_fence.
  destruct (3 <=? backticks (c :: s))%nat eqn:E.
  - apply Nat.leb_le in E.
    destruct (backticks_three _ E) as (t & Ht & Hb).
    injection Ht as -> ->. rewrite Hb. cbn [skipn].
    rewrite (IH (length t)); [| simpl in Hn; lia | reflexivity].
    replace (3 + backticks t) with (backticks t + 1 * 3) by lia.
    now rewrite Nat.Div0.mod_add.
  - apply Nat.leb_gt in E. cbn [backticks] in *.
    destruct (c =? 96)%N; [|reflexivity].
    rewrite (IH (length s)); [| simpl in Hn; lia | reflexivity].
    rewrite (Nat.mod_small (backticks s)) by lia.
    rewrite Nat.mod_small by lia. reflexivity.
Qed.

(** After the removal no fence is left anywhere. *)
Lemma includes_removeAll_fence (s : jsstring) :
  includes fence (removeAll fence s) = false.
Proof.
  remember (length s) as n eqn:Hn. revert s Hn.
  induction n as [n IH] using lt_wf_ind. intros s Hn.
  destruct s as [|c s]; [reflexivity|].
  pose proof (backticks_removeAll (c :: s)) as Hb.
  rewrite removeAll_fence_cons in *.
  destruct (startsWith fence (c :: s)).
  - apply (IH (length (skipn 2 s))); [|reflexivity].
    pose proof (length_skipn 2 s). simpl in Hn. lia.
  - rewrite includes_unfold, startsWith_fence.
    rewrite (IH (length s)); [| simpl in Hn; lia | reflexivity].
    rewrite orb_false_r. apply Nat.leb_gt. rewrite Hb.
    apply Nat.mod_upper_bound. discriminate.
Qed.

Lemma includes_fence_cons (c : N) (s : jsstring) :
  (c =? 96)%N = false -> includes fence (c :: s) = includes fence s.
Proof.
  intros H. rewrite includes_unfold, startsWith_fence. simpl. now rewrite H.
Qed.

Lemma includes_fence_cleaned (text : jsstring) :
  includes fence (cleaned text) = false.
Proof. apply includes_trim, includes_removeAll_fence. Qed.

Lemma includes_fence_vttContent (text : jsstring) :
  includes fence (vttContent text) = false.
Proof.
  unfold vttContent. destruct (startsWith WEBVTT (cleaned text)).
  - apply includes_fence_cleaned.
  - change (WEBVTT ++ nl ++ nl ++ cleaned text)
      with ([87; 69; 66; 86; 84; 84; 10; 10]%N ++ cleaned text).
    cbn [app]. rewrite !includes_fence_cons by reflexivity.
    apply includes_fence_cleaned.
Qed.

Lemma startsWith_vttContent (text : jsstring) :
  startsWith WEBVTT (vttContent text) = true.
Proof.
  unfold vttContent. destruct (startsWith WEBVTT (cleaned text)) eqn:E.
  - exact E.
  - apply startsWith_app.
Qed.

Lemma removeAll_fence_keep (c : N) (s : jsstring) :
  backticks (c :: s) < 3 -> removeAll fence (c :: s) = c :: removeAll fence s.
Proof.
  intros H. rewrite removeAll_fence_cons, startsWith_fence.
  apply Nat.leb_gt in H. now rewrite H.
Qed.

Lemma backticks_other (c : N) (s : jsstring) :
  c <> 96%N -> backticks (c :: s) = 0.
Proof. intros H. cbn [backticks]. apply N.eqb_neq in H. now rewrite H. Qed.

Lemma backticks_tick (s : jsstring) :
  backticks (96%N :: s) = S (backticks s).
Proof. reflexivity. Qed.

(** Deleting one more fence, wherever it is put, changes nothing in what
    the removal leaves: the fences inside the text go like the ones around
    it. *)
Lemma removeAll_fence_insert (a b : jsstring) :
  removeAll fence (a ++ fence ++ b) = removeAll fence (a ++ b).
Proof.
  remember (length a) as n eqn:Hn. revert a Hn.
  induction n as [n IH] using lt_wf_ind. intros a Hn.
  assert (forall a', length a' < n ->
            removeAll fence (a' ++ fence ++ b) = removeAll fence (a' ++ b)) as IH'.
  { intros a' Hlt. now apply (IH (length a')). }
  clear IH. subst n.
  destruct a as [|c a]; [apply removeAll_fence_app|].
  destruct (N.eqb_spec c 96) as [->|Hc].
  2:{ cbn [app].
      rewrite (removeAll_fence_keep c (a ++ fence ++ b)),
              (removeAll_fence_keep c (a ++ b))
        by (rewrite backticks_other by assumption; lia).
      f_equal. apply IH'. simpl. lia. }
  destruct a as [|d a].
  { apply (removeAll_fence_app (96%N :: b)). }
  destruct (N.eqb_spec d 96) as [->|Hd].
  2:{ cbn [app].
      rewrite (removeAll_fence_keep 96 (d :: a ++ fence ++ b)),
              (removeAll_fence_keep 96 (d :: a ++ b))
        by (rewrite backticks_tick, backticks_other by assumption; lia).
      f_equal. apply (IH' (d :: a)). simpl. lia. }
  destruct a as [|e a].
  { apply (removeAll_fence_app (96%N :: 96%N :: b)). }
  destruct (N.eqb_spec e 96) as [->|He].
  2:{ cbn [app].
      rewrite (removeAll_fence_keep 96 (96%N :: e :: a ++ fence ++ b)),
              (removeAll_fence_keep 96 (96%N :: e :: a ++ b))
        by (rewrite !backticks_tick, backticks_other by assumption; lia).
      f_equal. apply (IH' (96%N :: e :: a)). simpl. lia. }
  rewrite (removeAll_fence_app ((a ++ fence ++ b))
           : removeAll fence ((96 :: 96 :: 96 :: a)%N ++ fence ++ b) = _).
  rewrite (removeAll_fence_app (a ++ b)
           : removeAll fence ((96 :: 96 :: 96 :: a)%N ++ b) = _).
  apply IH'. simpl. lia.
Qed.

(** A replacement finds nothing to remove in a string without its
    pattern. *)
Lemma removeAll_absent (pat s : jsstring) :
  includes pat s = false -> removeAll pat s = s.
Proof.
  induction s as [|c s IH]; intros H; [reflexivity|].
  rewrite includes_unfold in H. apply orb_false_elim in H.
  destruct H as [H1 H2].
  rewrite removeAll_cons, H1. f_equal. now apply IH.
Qed.

Lemma includes_fence_vtt (s : jsstring) :
  includes fence s = false -> includes fence_vtt s = false.
Proof.
  intros H. destruct (includes fence_vtt s) eqn:E; [|reflexivity].
  apply includes_spec in E. destruct E as (a & b & ->).
  assert (includes fence (a ++ fence_vtt ++ b) = true) as H'.
  { apply includes_spec. exists a, (js "vtt" ++ nl ++ b). reflexivity. }
  congruence.
Qed.

(** What the clean-up does to a payload that needs none. *)
Lemma vttContent_clean (text : jsstring) :
  includes fence text = false ->
  trim text = text ->
  startsWith WEBVTT text = true ->
  vttContent text = text.
Proof.
  intros Hf Ht Hw. unfold vttContent, cleaned.
  rewrite (removeAll_absent fence_vtt text) by now apply includes_fence_vtt.
  rewrite (removeAll_absent fence text) by assumption.
  now rewrite Ht, Hw.
Qed.

Lemma cleaned_fence_insert (a b : jsstring) :
  includes fence_vtt (a ++ fence ++ b) = false ->
  includes fence_vtt (a ++ b) = false ->
  cleaned (a ++ fence ++ b) = cleaned (a ++ b).
Proof.
  intros H1 H2. unfold cleaned.
  rewrite (removeAll_absent fence_vtt _ H1), (removeAll_absent fence_vtt _ H2).
  now rewrite removeAll_fence_insert.
Qed.

End Fences.

(** ** The route /api/generate *)

Section GenerateRoute.

Import Generate.

Variable getSubtitles : jsstring -> jsstring -> js_result (option (list caption)).
Variable displayNameOf : jsstring -> js_result jsstring.
Variable generateContent : jsstring -> js_result jsstring.

(** The run in which every collaborator answers: the response is the
    cleaned text of the model, with status 200. *)
Lemma respond_document req videoID captions languageName text :
  accepted req videoID ->
  getSubtitles videoID (js "en") = Returns (Some captions) ->
  captions <> [] ->
  displayNameOf (string_of (language req)) = Returns languageName ->
  generateContent (prompt languageName (transcript captions)) = Returns text ->
  respond getSubtitles displayNameOf generateContent req =
  ({| status := 200; body := TextVtt (vttContent text) |},
   [GetSubtitles videoID (js "en");
    GenerateContent (prompt languageName (transcript captions))]).
Proof.
  intros (Hu & Hl & Hid) Hc Hne Hn Hg.
  unfold Generate.respond, run, generate, bind, await, attempt.
  rewrite Hu, Hl, Hid. cbn [orb app]. rewrite Hc.
  destruct captions as [|c captions]; [congruence|].
  cbn -[prompt transcript vttContent js]. rewrite Hn.
  cbn -[prompt transcript vttContent js]. rewrite Hg. reflexivity.
Qed.

(** The run in which the caption source has nothing. *)
Lemma respond_no_captions req videoID captions :
  accepted req videoID ->
  getSubtitles videoID (js "en") = Returns captions ->
  captions = None \/ captions = Some [] ->
  respond getSubtitles displayNameOf generateContent req =
  ({| status := 404;
      body := JsonMessage (js "No English subtitles found for this video. Cannot generate translation.") |},
   [GetSubtitles videoID (js "en")]).
Proof.
  intros (Hu & Hl & Hid) Hc Hnone.
  unfold Generate.respond, run, generate, bind, await, attempt.
  rewrite Hu, Hl, Hid. cbn [orb app]. rewrite Hc.
  destruct Hnone as [-> | ->]; reflexivity.
Qed.

(** A request without one of its fields is answered at once. *)
Lemma respond_missing req :
  falsy (youtubeUrl req) = true \/ falsy (language req) = true ->
  respond getSubtitles displayNameOf generateContent req =
  ({| status := 400;
      body := JsonMessage (js "Missing youtubeUrl or language in request body.") |},
   []).
Proof.
  intros H. unfold Generate.respond, run, generate.
  destruct H as [-> | ->]; rewrite ?orb_true_r; reflexivity.
Qed.

(** An accepted request fetches the captions, whatever its language. *)
Lemma respond_fetches req videoID :
  accepted req videoID ->
  exists rest,
    snd (respond getSubtitles displayNameOf generateContent req) =
    GetSubtitles videoID (js "en") :: rest.
Proof.
  intros (Hu & Hl & Hid).
  unfold Generate.respond, run, generate, bind, await, attempt.
  rewrite Hu, Hl, Hid. cbn [orb app].
  destruct (getSubtitles videoID (js "en")) as [[[|c captions]|]|e];
    cbn -[prompt transcript vttContent js]; try (eexists; reflexivity).
  destruct (displayNameOf _);
    cbn -[prompt transcript vttContent js]; try (eexists; reflexivity).
  destruct (generateContent _);
    cbn -[prompt transcript vttContent js]; eexists; reflexivity.
Qed.

End GenerateRoute.

(** ** The route /api/subtitles *)

Section SubtitlesRoute.

Import Subtitles.

Variable getInfo : jsstring -> js_result videoDetails.
Variable generateContent : jsstring -> js_result jsstring.

(** The run in which both collaborators answer: the response is the
    cues made from the translated text, with status 200, whatever the
    duration of the video. *)
Lemma respond_subtitles req videoInfo translatedText :
  falsy (videoId req) = false ->
  falsy (language req) = false ->
  getInfo (string_of (videoId req)) = Returns videoInfo ->
  generateContent (prompt (string_of (language req)) (title videoInfo))
    = Returns translatedText ->
  respond getInfo generateContent req =
  ({| status := 200;
      body := JsonSubtitles (subtitlesWithTimestamps translatedText) |},
   [GetInfo (string_of (videoId req));
    GenerateContent (prompt (string_of (language req)) (title videoInfo))]).
Proof.
  intros Hv Hl Hi Hg.
  unfold Subtitles.respond, run, subtitles, bind, await, attempt.
  rewrite Hv, Hl. cbn [orb app]. rewrite Hi.
  cbn -[prompt subtitlesWithTimestamps js]. rewrite Hg. reflexivity.
Qed.

Lemma respond_subtitles_missing req :
  falsy (videoId req) = true \/ falsy (language req) = true ->
  respond getInfo generateContent req =
  ({| status := 400; body := JsonError (js "Video ID and language are required.") |},
   []).
Proof.
  intros H. unfold Subtitles.respond, run, subtitles.
  destruct H as [-> | ->]; rewrite ?orb_true_r; reflexivity.
Qed.

Lemma respond_subtitles_fetches req :
  falsy (videoId req) = false ->
  falsy (language req) = false ->
  exists rest,
    snd (respond getInfo generateContent req) =
    GetInfo (string_of (videoId req)) :: rest.
Proof.
  intros Hv Hl.
  unfold Subtitles.respond, run, subtitles, bind, await, attempt.
  rewrite Hv, Hl. cbn [orb app].
  destruct (getInfo _);
    cbn -[prompt subtitlesWithTimestamps js]; try (eexists; reflexivity).
  destruct (generateContent _);
    cbn -[prompt subtitlesWithTimestamps js]; eexists; reflexivity.
Qed.

End SubtitlesRoute.

(** ** The claims on the timed-document pipeline *)

Section JoinFacts.

Lemma join_from_next (sep R : jsstring) (k : nat) (a : list jsstring) :
  join_from sep R (S k) a = R ++ concat (map (app sep) a).
Proof.
  revert R k. induction a as [|x a IH]; intros R k; cbn [join_from map concat].
  - now rewrite app_nil_r.
  - rewrite IH. cbn [Nat.eqb]. now rewrite <- !app_assoc.
Qed.

Lemma join_cons (sep x : jsstring) (a : list jsstring) :
  join sep (x :: a) = x ++ concat (map (app sep) a).
Proof. unfold join. cbn [join_from Nat.eqb app]. apply join_from_next. Qed.

Lemma join_nil (sep : jsstring) : join sep [] = [].
Proof. reflexivity. Qed.

Lemma assemble_cons (x : jsstring) (a : list jsstring) :
  Spec.assemble (x :: a) = x ++ concat (map (app (js " ")) a).
Proof.
  revert x. induction a as [|y a IH]; intros x.
  - cbn [Spec.assemble map concat]. now rewrite app_nil_r.
  - change (Spec.assemble (x :: y :: a)) with (x ++ js " " ++ Spec.assemble (y :: a)).
    rewrite IH. cbn [map concat]. now rewrite <- !app_assoc.
Qed.

Lemma join_assemble (a : list jsstring) : join (js " ") a = Spec.assemble a.
Proof.
  destruct a as [|x a]; [reflexivity|].
  now rewrite join_cons, assemble_cons.
Qed.

End JoinFacts.

Section GenerateClaims.

Import Generate.

(** C8.  For every non-empty sequence of caption fragments, the
    transcript the handler builds is the fragments' text joined with
    single spaces, every fragment present, in the original order and
    unchanged: it is the text of the first fragment followed, for each
    later fragment in turn, by a space and the text of that fragment. *)
Theorem transcript_space_joined (captions : list caption) :
  captions <> [] ->
  transcript captions = Spec.assemble (map text captions) /\
  transcript captions =
    text (hd {| text := []; start := []; dur := [] |} captions)
    ++ concat (map (fun c => js " " ++ text c) (tl captions)).
Proof.
  intros Hne. unfold transcript. split.
  - apply join_assemble.
  - destruct captions as [|c captions]; [congruence|].
    cbn [map hd tl]. rewrite join_cons. now rewrite map_map.
Qed.

Lemma transcript_space_joined_witness :
  transcript Sample.captions = js "never gonna give you up".
Proof.
  destruct (transcript_space_joined Sample.captions) as [H _].
  - discriminate.
  - rewrite H. reflexivity.
Defined.

End GenerateClaims.

Section GenerateErrors.

Import Generate.

(** C6.  When the caption source returns no list or an empty list for
    the video of an accepted request, the response is the 404 message
    that no subtitles were found, and the run has issued the caption
    fetch only: no translation request. *)
Theorem no_captions_no_translation
    getSubtitles displayNameOf generateContent req videoID captions :
  accepted req videoID ->
  getSubtitles videoID (js "en") = Returns captions ->
  captions = None \/ captions = Some [] ->
  let (response, log) := respond getSubtitles displayNameOf generateContent req in
  status response = 404%N /\
  body response =
    JsonMessage (js "No English subtitles found for this video. Cannot generate translation.") /\
  log = [GetSubtitles videoID (js "en")] /\
  existsb is_translation log = false.
Proof.
  intros Ha Hc Hnone.
  rewrite (respond_no_captions _ displayNameOf generateContent _ _ _ Ha Hc Hnone).
  repeat split.
Qed.

Lemma no_captions_no_translation_witness :
  let (response, log) :=
    respond (Sample.getSubtitles (Some [])) Sample.displayNameOf
      (Sample.generateContent Sample.inverted_document)
      (Sample.generate_request (js "es")) in
  status response = 404%N /\
  body response =
    JsonMessage (js "No English subtitles found for this video. Cannot generate translation.") /\
  log = [GetSubtitles Sample.id (js "en")] /\
  existsb is_translation log = false.
Proof.
  apply (no_captions_no_translation (Sample.getSubtitles (Some []))
           Sample.displayNameOf (Sample.generateContent Sample.inverted_document)
           (Sample.generate_request (js "es")) Sample.id (Some [])).
  - repeat split.
  - reflexivity.
  - right. reflexivity.
Defined.

(** C1, as the specification states it, fails: the model returns a
    document whose only cue runs from 5 s back to 2 s, and the response
    is that very document with status 200. *)
Lemma inverted_cue_sent :
  Vtt.parse Sample.inverted_document =
    [ {| Vtt.text := js "hola"; Vtt.start_ms := 5000; Vtt.end_ms := 2000 |} ] /\
  existsb Vtt.inverted (Vtt.parse Sample.inverted_document) = true /\
  fst (respond (Sample.getSubtitles (Some Sample.captions)) Sample.displayNameOf
         (Sample.generateContent Sample.inverted_document)
         (Sample.generate_request (js "es"))) =
  {| status := 200; body := TextVtt Sample.inverted_document |}.
Proof. repeat split. Qed.

(** C1, amended.  The timed-document pipeline does not read the
    timestamps: whenever the model returns a text, the response is that
    text cleaned (fences removed, trimmed, header restored) with status
    200, and a text that has no fence, no white space at its ends and
    the header already is sent as it is, whatever its cues. *)
Theorem timed_document_not_validated
    getSubtitles displayNameOf generateContent req videoID captions
    languageName text :
  accepted req videoID ->
  getSubtitles videoID (js "en") = Returns (Some captions) ->
  captions <> [] ->
  displayNameOf (string_of (language req)) = Returns languageName ->
  generateContent (prompt languageName (transcript captions)) = Returns text ->
  fst (respond getSubtitles displayNameOf generateContent req) =
    {| status := 200; body := TextVtt (vttContent text) |} /\
  (includes fence text = false ->
   trim text = text ->
   startsWith WEBVTT text = true ->
   fst (respond getSubtitles displayNameOf generateContent req) =
     {| status := 200; body := TextVtt text |}).
Proof.
  intros Ha Hc Hne Hn Hg.
  rewrite (respond_document _ _ _ _ _ _ _ _ Ha Hc Hne Hn Hg). cbn [fst].
  split; [reflexivity|].
  intros Hf Ht Hw. now rewrite vttContent_clean.
Qed.

Lemma timed_document_not_validated_witness :
  fst (respond (Sample.getSubtitles (Some Sample.captions)) Sample.displayNameOf
         (Sample.generateContent Sample.inverted_document)
         (Sample.generate_request (js "es"))) =
  {| status := 200; body := TextVtt Sample.inverted_document |}.
Proof.
  apply (timed_document_not_validated
           (Sample.getSubtitles (Some Sample.captions)) Sample.displayNameOf
           (Sample.generateContent Sample.inverted_document)
           (Sample.generate_request (js "es")) Sample.id Sample.captions
           (js "es") Sample.inverted_document).
  - repeat split.
  - reflexivity.
  - discriminate.
  - reflexivity.
  - reflexivity.
  - reflexivity.
  - reflexivity.
  - reflexivity.
Defined.

End GenerateErrors.

Section Languages.

(** C3, as the specification states it, fails: the tag [xx] is in
    neither list of languages, and both routes go through their external
    calls with it and answer 200. *)
Lemma unlisted_language_served :
  Client.listed Client.languages (js "xx") = false /\
  Client.listed Client.languages_generate (js "xx") = false /\
  (let (response, log) :=
     Generate.respond (Sample.getSubtitles (Some Sample.captions))
       Sample.displayNameOf (Sample.generateContent Sample.fenced_payload)
       (Sample.generate_request (js "xx")) in
   Generate.status response = 200%N /\
   map is_translation log = [false; true] /\
   hd_error log = Some (GetSubtitles Sample.id (js "en"))) /\
  (let (response, log) :=
     Subtitles.respond (Sample.getInfo (js "10")) (Sample.generateContent (js "hola"))
       (Sample.subtitles_request (js "xx")) in
   Subtitles.status response = 200%N /\
   map is_translation log = [false; true] /\
   hd_error log = Some (GetInfo Sample.id)).
Proof. repeat split. Qed.

(** C3, amended.  Of the language the two routes check the presence
    only.  A request with no language, or an empty one, is answered 400
    before any external call; every other request that has its video
    reference issues the caption fetch (the metadata fetch on the plain
    route) first, whatever the tag. *)
Theorem language_presence_only
    getSubtitles displayNameOf getInfo generateContent :
  (forall req,
     falsy (Generate.language req) = true ->
     Generate.respond getSubtitles displayNameOf generateContent req =
     ({| Generate.status := 400;
         Generate.body :=
           Generate.JsonMessage (js "Missing youtubeUrl or language in request body.") |},
      [])) /\
  (forall req,
     falsy (Subtitles.language req) = true ->
     Subtitles.respond getInfo generateContent req =
     ({| Subtitles.status := 400;
         Subtitles.body := Subtitles.JsonError (js "Video ID and language are required.") |},
      [])) /\
  (forall req videoID,
     Generate.accepted req videoID ->
     exists rest,
       snd (Generate.respond getSubtitles displayNameOf generateContent req) =
       GetSubtitles videoID (js "en") :: rest) /\
  (forall req,
     falsy (Subtitles.videoId req) = false ->
     falsy (Subtitles.language req) = false ->
     exists rest,
       snd (Subtitles.respond getInfo generateContent req) =
       GetInfo (string_of (Subtitles.videoId req)) :: rest).
Proof.
  repeat split.
  - intros req H. apply respond_missing. now right.
  - intros req H. apply respond_subtitles_missing. now right.
  - intros req videoID H. now apply respond_fetches.
  - intros req Hv Hl. now apply respond_subtitles_fetches.
Qed.

Lemma language_presence_only_witness :
  Generate.respond (Sample.getSubtitles (Some Sample.captions))
    Sample.displayNameOf (Sample.generateContent Sample.fenced_payload)
    {| Generate.youtubeUrl := Some Sample.link; Generate.language := Some [] |} =
  ({| Generate.status := 400;
      Generate.body :=
        Generate.JsonMessage (js "Missing youtubeUrl or language in request body.") |},
   []) /\
  exists rest,
    snd (Generate.respond (Sample.getSubtitles (Some Sample.captions))
           Sample.displayNameOf (Sample.generateContent Sample.fenced_payload)
           (Sample.generate_request (js "xx"))) =
    GetSubtitles Sample.id (js "en") :: rest.
Proof.
  destruct (language_presence_only
              (Sample.getSubtitles (Some Sample.captions)) Sample.displayNameOf
              (Sample.getInfo (js "10"))
              (Sample.generateContent Sample.fenced_payload))
    as (Hmissing & _ & Hfetch & _).
  split.
  - apply Hmissing. reflexivity.
  - apply Hfetch. repeat split.
Defined.

End Languages.

(** ** The claims on the plain pipeline *)

Section Synthesizer.

Import Subtitles.

Open Scope Z_scope.

Lemma loop_done (ws : list jsstring) (wordIndex : nat) t subs :
  ~ (wordIndex < length ws)%nat -> loop ws wordIndex t subs = subs.
Proof.
  intros H. simp loop. destruct (lt_dec wordIndex (length ws)); [contradiction|].
  reflexivity.
Qed.

Lemma loop_skip (ws : list jsstring) (wordIndex : nat) t subs :
  (wordIndex < length ws)%nat ->
  trim (subtitleText ws wordIndex) = [] ->
  loop ws wordIndex t subs = loop ws (wordIndex + 5) t subs.
Proof.
  intros H E. rewrite loop_equation_1.
  destruct (lt_dec wordIndex (length ws)); [|contradiction].
  cbn. rewrite E. reflexivity.
Qed.

Lemma loop_push (ws : list jsstring) (wordIndex : nat) t subs :
  (wordIndex < length ws)%nat ->
  trim (subtitleText ws wordIndex) <> [] ->
  loop ws wordIndex t subs =
  loop ws (wordIndex + 5) (t + 2)
    (subs ++ [ {| text := subtitleText ws wordIndex; start := t; end_ := t + 2 |} ]).
Proof.
  intros H E. rewrite loop_equation_1.
  destruct (lt_dec wordIndex (length ws)); [|contradiction].
  cbn. unfold str_eqb.
  destruct (list_eq_dec N.eq_dec (trim (subtitleText ws wordIndex)) []);
    [contradiction | reflexivity].
Qed.

(** What the loop adds to the cues it starts from. *)
Lemma loop_timed (ws : list jsstring) (wordIndex : nat) t subs :
  exists news, loop ws wordIndex t subs = subs ++ news /\ timed_from t news.
Proof.
  remember (length ws - wordIndex)%nat as n eqn:Hn.
  revert wordIndex t subs Hn.
  induction n as [n IH] using lt_wf_ind. intros wordIndex t subs Hn.
  destruct (lt_dec wordIndex (length ws)) as [Hlt|Hge].
  - destruct (list_eq_dec N.eq_dec (trim (subtitleText ws wordIndex)) [])
      as [E|E].
    + rewrite (loop_skip ws wordIndex t subs Hlt E).
      apply (IH (length ws - (wordIndex + 5))%nat); [lia | reflexivity].
    + rewrite (loop_push ws wordIndex t subs Hlt E).
      destruct (IH (length ws - (wordIndex + 5))%nat ltac:(lia)
                  (wordIndex + 5)%nat (t + 2)
                  (subs ++ [ {| text := subtitleText ws wordIndex;
                                start := t; end_ := t + 2 |} ]) eq_refl)
        as (news & -> & Hnews).
      eexists. rewrite <- app_assoc. split; [reflexivity|].
      cbn. auto.
  - rewrite (loop_done ws wordIndex t subs Hge). exists []. now rewrite app_nil_r.
Qed.

Lemma timed_from_order t cues :
  timed_from t cues ->
  Forall (fun c => start c < end_ c) cues /\
  adjacent (fun c c' => end_ c = start c') cues.
Proof.
  revert t. induction cues as [|c cues IH]; intros t H; [now split|].
  destruct H as (Hs & He & Hrest). destruct (IH _ Hrest) as [IH1 IH2].
  split.
  - constructor; [lia | exact IH1].
  - destruct cues as [|c' cues]; [exact I|].
    split; [|exact IH2]. destruct Hrest as (Hs' & _). lia.
Qed.

Lemma adjacent_weaken (R R' : cue -> cue -> Prop) cues :
  (forall c c', R c c' -> R' c c') -> adjacent R cues -> adjacent R' cues.
Proof.
  intros HR. induction cues as [|c [|c' cues] IH]; cbn; auto.
  intros [H1 H2]. split; [now apply HR | now apply IH].
Qed.

(** C4.  In every sequence of cues the synthesizer makes, each cue
    starts strictly before it ends, each cue ends where the next one
    starts (so no later than it), and the cues are the two-second slots
    0-2, 2-4, ... in turn. *)
Theorem synthesized_cues_chained (translatedText : jsstring) :
  let cues := subtitlesWithTimestamps translatedText in
  Forall (fun c => start c < end_ c) cues /\
  adjacent (fun c c' => end_ c <= start c') cues /\
  adjacent (fun c c' => end_ c = start c') cues /\
  timed_from 0 cues.
Proof.
  cbn zeta. unfold subtitlesWithTimestamps.
  destruct (loop_timed (words translatedText) 0 0 []) as (news & -> & H).
  cbn [app]. destruct (timed_from_order _ _ H) as [H1 H2].
  repeat split; try assumption.
  apply (adjacent_weaken _ _ _ (fun c c' (E : end_ c = start c') => Z.eq_le_incl _ _ E) H2).
Qed.

Lemma split_go_pieces in_ws cur s :
  Forall (fun c => is_space c = false) cur ->
  Forall (Forall (fun c => is_space c = false)) (split_go in_ws cur s).
Proof.
  revert in_ws cur. induction s as [|c s IH]; intros in_ws cur Hcur; cbn.
  - now constructor.
  - destruct (is_space c) eqn:E.
    + destruct in_ws; [now apply IH|]. constructor; [assumption|].
      apply IH. constructor.
    + apply IH. apply Forall_app. split; [assumption|]. now repeat constructor.
Qed.

(** The pieces of a split have no white space in them, so that a piece
    is a word as soon as it is not empty. *)
Lemma words_word translatedText w :
  In w (words translatedText) -> w <> [] -> word w.
Proof.
  intros Hin Hne.
  pose proof (split_go_pieces false [] translatedText (Forall_nil _)) as H.
  rewrite Forall_forall in H. specialize (H w Hin).
  destruct w as [|c w]; [congruence|]. now inversion H.
Qed.

Lemma split_go_nonempty in_ws cur s : split_go in_ws cur s <> [].
Proof.
  revert in_ws cur. induction s as [|c s IH]; intros in_ws cur; cbn.
  - discriminate.
  - destruct (is_space c); [destruct in_ws|]; try apply IH. discriminate.
Qed.

Lemma dropWhile_app_last (f : N -> bool) (s : jsstring) (c : N) :
  f c = false -> dropWhile f (s ++ [c]) <> [].
Proof.
  intros Hc. induction s as [|d s IH]; cbn.
  - rewrite Hc. discriminate.
  - destruct (f d); [exact IH | discriminate].
Qed.

Lemma trim_nonempty (c : N) (s : jsstring) :
  is_space c = false -> trim (c :: s) <> [].
Proof.
  intros Hc. unfold trim, trimStart, trimEnd. cbn [dropWhile]. rewrite Hc.
  cbn [rev]. intros H. apply (f_equal (@rev N)) in H.
  rewrite rev_involutive in H. cbn in H.
  now apply (dropWhile_app_last is_space (rev s) c Hc).
Qed.

(** A group that starts with a word is not skipped. *)
Lemma group_kept (ws : list jsstring) (wordIndex : nat) :
  word (nth wordIndex ws []) -> trim (subtitleText ws wordIndex) <> [].
Proof.
  intros Hw. unfold subtitleText, slice.
  replace (wordIndex + 5 - wordIndex)%nat with 5%nat by lia.
  revert wordIndex Hw. induction ws as [|x ws IH]; intros [|i] Hw; cbn in Hw;
    try contradiction.
  - cbn [skipn firstn]. rewrite join_cons.
    destruct x as [|c x]; [contradiction|]. now apply trim_nonempty.
  - cbn [skipn]. now apply IH.
Qed.

End Synthesizer.

Section PlainClaims.

Import Subtitles.

Open Scope Z_scope.

(** C2, as the specification states it, fails: with a duration of zero
    seconds the quotient is computed (it is [Infinity]; [NaN] when the
    duration is not a number) and the response is the cues, with status
    200. *)
Lemma zero_duration_served :
  parseInt (js "0") = Int false 0 /\
  wordsPerSecond (js "hola mundo") (parseInt (js "0")) = QInfinity false /\
  wordsPerSecond (js "hola mundo") (parseInt (js "undefined")) = QNaN /\
  fst (respond (Sample.getInfo (js "0")) (Sample.generateContent (js "hola mundo"))
         (Sample.subtitles_request (js "es"))) =
  {| status := 200;
     body := JsonSubtitles [ {| text := js "hola mundo"; start := 0; end_ := 2 |} ] |}.
Proof. repeat split; reflexivity. Qed.

(** C2, amended.  The plain pipeline has no guard on the duration: for
    every duration the route reads, the response is the cues of the
    translated text with status 200, and the quotient
    [words.length / videoDuration] is [Infinity] (with the sign of the
    zero) when the duration is zero and [NaN] when it is not a number. *)
Theorem duration_not_guarded
    getInfo generateContent req videoInfo translatedText :
  falsy (videoId req) = false ->
  falsy (language req) = false ->
  getInfo (string_of (videoId req)) = Returns videoInfo ->
  generateContent (prompt (string_of (language req)) (title videoInfo))
    = Returns translatedText ->
  fst (respond getInfo generateContent req) =
    {| status := 200;
       body := JsonSubtitles (subtitlesWithTimestamps translatedText) |} /\
  (forall negative,
     parseInt (lengthSeconds videoInfo) = Int negative 0 ->
     wordsPerSecond translatedText (parseInt (lengthSeconds videoInfo))
       = QInfinity negative) /\
  (parseInt (lengthSeconds videoInfo) = NaN ->
   wordsPerSecond translatedText (parseInt (lengthSeconds videoInfo)) = QNaN).
Proof.
  intros Hv Hl Hi Hg.
  rewrite (respond_subtitles getInfo generateContent req _ _ Hv Hl Hi Hg).
  split; [reflexivity|]. split.
  - intros negative ->. unfold wordsPerSecond, words, split_ws, divide.
    pose proof (split_go_nonempty false [] translatedText) as Hne.
    destruct (split_go false [] translatedText); [congruence | reflexivity].
  - intros ->. reflexivity.
Qed.

Lemma duration_not_guarded_witness :
  fst (respond (Sample.getInfo (js "0")) (Sample.generateContent (js "hola mundo"))
         (Sample.subtitles_request (js "es"))) =
    {| status := 200;
       body := JsonSubtitles (subtitlesWithTimestamps (js "hola mundo")) |} /\
  wordsPerSecond (js "hola mundo") (parseInt (js "0")) = QInfinity false.
Proof.
  destruct (duration_not_guarded
              (Sample.getInfo (js "0")) (Sample.generateContent (js "hola mundo"))
              (Sample.subtitles_request (js "es"))
              {| title := js "A video"; lengthSeconds := js "0" |}
              (js "hola mundo")) as (Hresponse & Hzero & _).
  - reflexivity.
  - reflexivity.
  - reflexivity.
  - reflexivity.
  - split; [exact Hresponse | apply Hzero; reflexivity].
Defined.

End PlainClaims.

(** ** The wire format: serializer and parser of the specification *)

Section WireFormat.

Import Vtt.

Open Scope N_scope.

Lemma is_digit_digit n : is_digit (digit n) = true.
Proof.
  unfold is_digit, digit.
  pose proof (N.mod_upper_bound n 10 ltac:(discriminate)) as H.
  generalize dependent (n mod 10). intros r Hr.
  apply andb_true_intro. split; apply N.leb_le; lia.
Qed.

Lemma value_pad2 n : n < 100 -> value (pad2 n) = n.
Proof.
  intros H. unfold value, pad2, digit. cbn [fold_left].
  pose proof (N.Div0.div_mod n 10) as E.
  assert (n / 10 < 10) as Hq by (apply N.Div0.div_lt_upper_bound; lia).
  rewrite (N.mod_small (n / 10)) by assumption.
  generalize dependent (n mod 10). generalize dependent (n / 10).
  intros; lia.
Qed.

Lemma value_pad3 n : n < 1000 -> value (pad3 n) = n.
Proof.
  intros H. unfold value, pad3, digit. cbn [fold_left].
  pose proof (N.Div0.div_mod n 10) as E1.
  pose proof (N.Div0.div_mod (n / 10) 10) as E2.
  assert (n / 100 = n / 10 / 10) as E3 by (now rewrite N.Div0.div_div).
  assert (n / 100 < 10) as Hq by (apply N.Div0.div_lt_upper_bound; lia).
  rewrite (N.mod_small (n / 100)) by assumption. rewrite E3 in *.
  generalize dependent (n mod 10). generalize dependent ((n / 10) mod 10).
  generalize dependent (n / 10 / 10). generalize dependent (n / 10).
  intros; lia.
Qed.

(** The fields of an offset put it together again. *)
Lemma fields_offset ms :
  ((ms / 3600000 * 60 + (ms / 60000) mod 60) * 60 + (ms / 1000) mod 60) * 1000
  + ms mod 1000 = ms.
Proof.
  pose proof (N.Div0.div_mod ms 1000) as E1.
  pose proof (N.Div0.div_mod (ms / 1000) 60) as E2.
  pose proof (N.Div0.div_mod (ms / 1000 / 60) 60) as E3.
  replace (ms / 60000) with (ms / 1000 / 60) by (now rewrite N.Div0.div_div).
  replace (ms / 3600000) with (ms / 1000 / 60 / 60)
    by (now rewrite !N.Div0.div_div).
  generalize dependent (ms mod 1000).
  generalize dependent ((ms / 1000) mod 60).
  generalize dependent ((ms / 1000 / 60) mod 60).
  generalize dependent (ms / 1000 / 60 / 60).
  generalize dependent (ms / 1000 / 60).
  generalize dependent (ms / 1000).
  intros; lia.
Qed.

Lemma parse_timestamp_fields h m s f :
  parse_timestamp
    (pad2 h ++ js ":" ++ pad2 m ++ js ":" ++ pad2 s ++ js "." ++ pad3 f) =
  Some (((value (pad2 h) * 60 + value (pad2 m)) * 60 + value (pad2 s)) * 1000
        + value (pad3 f)).
Proof.
  unfold pad2, pad3.
  change (js ":") with [58]. change (js ".") with [46].
  cbn [app parse_timestamp forallb].
  rewrite !is_digit_digit. reflexivity.
Qed.

Lemma parse_timestamp_timestamp ms :
  ms < 360000000 -> parse_timestamp (timestamp ms) = Some ms.
Proof.
  intros H. unfold timestamp. rewrite parse_timestamp_fields.
  rewrite !value_pad2, value_pad3.
  - now rewrite fields_offset.
  - apply N.mod_upper_bound. discriminate.
  - apply (N.lt_trans _ 60); [apply N.mod_upper_bound; discriminate | reflexivity].
  - apply (N.lt_trans _ 60); [apply N.mod_upper_bound; discriminate | reflexivity].
  - apply N.Div0.div_lt_upper_bound. exact H.
Qed.

Lemma length_timestamp ms : length (timestamp ms) = 12%nat.
Proof. reflexivity. Qed.

Lemma parse_timing_timing_line c :
  start_ms c < 360000000 -> end_ms c < 360000000 ->
  parse_timing (timing_line c) = Some (start_ms c, end_ms c).
Proof.
  intros Hs He. unfold parse_timing, timing_line.
  assert (forall (a b : jsstring), length a = 12%nat ->
            firstn 12 (a ++ b) = a /\ skipn 12 (a ++ b) = b) as Hcut.
  { intros a b Ha. rewrite <- Ha. split.
    - rewrite firstn_app, firstn_all, Nat.sub_diag. cbn. apply app_nil_r.
    - rewrite skipn_app, skipn_all, Nat.sub_diag. reflexivity. }
  destruct (Hcut (timestamp (start_ms c)) (arrow ++ timestamp (end_ms c))
              (length_timestamp _)) as [E1 E2].
  rewrite E1.
  replace (skipn 17 (timestamp (start_ms c) ++ arrow ++ timestamp (end_ms c)))
    with (timestamp (end_ms c)).
  - rewrite E2, startsWith_app.
    now rewrite !parse_timestamp_timestamp.
  - change 17%nat with (5 + 12)%nat. rewrite <- skipn_skipn, E2. reflexivity.
Qed.

Lemma lines_go_app cur s r :
  lines_go cur (s ++ 10 :: r) = lines_go cur s ++ lines r.
Proof.
  revert cur. induction s as [|c s IH]; intros cur; cbn [app lines_go].
  - change (10 =? 10) with true. reflexivity.
  - destruct (c =? 10); [|apply IH]. cbn [app]. f_equal. apply IH.
Qed.

Lemma lines_app s r : lines (s ++ nl ++ r) = lines s ++ lines r.
Proof. apply lines_go_app. Qed.

Lemma lines_nl r : lines (nl ++ r) = [] :: lines r.
Proof. apply (lines_app [] r). Qed.

Lemma lines_go_one cur l :
  forallb (fun c => negb (c =? 10)) l = true -> lines_go cur l = [cur ++ l].
Proof.
  revert cur. induction l as [|c l IH]; intros cur H; cbn [lines_go].
  - now rewrite app_nil_r.
  - cbn [forallb] in H. apply andb_prop in H. destruct H as [Hc Hl].
    apply negb_true_iff in Hc. rewrite Hc, (IH _ Hl).
    now rewrite <- app_assoc.
Qed.

Lemma digit_not_nl n : negb (digit n =? 10) = true.
Proof.
  unfold digit. apply negb_true_iff, N.eqb_neq.
  generalize (n mod 10). intros; lia.
Qed.

Lemma lines_timing_line c : lines (timing_line c) = [timing_line c].
Proof.
  apply (lines_go_one []).
  unfold timing_line, timestamp, pad2, pad3.
  change (js ":") with [58]. change (js ".") with [46].
  change arrow with [32; 45; 45; 62; 32].
  cbn [app forallb]. rewrite !digit_not_nl. reflexivity.
Qed.

Lemma concat_lines_go cur s :
  concat (map (app nl) (lines_go cur s)) = nl ++ cur ++ s.
Proof.
  revert cur. induction s as [|c s IH]; intros cur; cbn [lines_go].
  - cbn. now rewrite !app_nil_r.
  - destruct (N.eqb_spec c 10) as [->|Hc].
    + cbn [map concat]. rewrite IH. unfold nl. cbn [app]. reflexivity.
    + rewrite IH. now rewrite <- app_assoc.
Qed.

(** The lines of a text, joined with line feeds, are the text. *)
Lemma join_lines s : join nl (lines s) = s.
Proof.
  pose proof (concat_lines_go [] s) as H. unfold lines.
  destruct (lines_go [] s) as [|x rest] eqn:E.
  - cbn in H. discriminate.
  - rewrite join_cons. cbn [map concat] in H.
    unfold nl in H at 1 3. cbn [app] in H. now injection H.
Qed.

(** The text of an open cue, read up to the blank line after it. *)
Lemma parse_lines_text s e acc tl rest :
  forallb text_line tl = true ->
  parse_lines (Some (s, e, acc)) (tl ++ [] :: rest) =
  {| text := join nl (acc ++ tl); start_ms := s; end_ms := e |}
    :: parse_lines None rest.
Proof.
  revert acc. induction tl as [|l tl IH]; intros acc H.
  - rewrite app_nil_r. reflexivity.
  - cbn [forallb] in H. apply andb_prop in H. destruct H as [Hl Htl].
    unfold text_line in Hl. apply andb_prop in Hl. destruct Hl as [Hb Ht].
    apply negb_true_iff in Hb.
    cbn [app parse_lines]. destruct (parse_timing l); [discriminate|].
    rewrite Hb, (IH _ Htl). now rewrite <- app_assoc.
Qed.

(** The lines of the blocks of a document are read back as its cues. *)
Lemma parse_lines_blocks doc :
  forallb carried doc = true ->
  parse_lines None (lines (concat (map block doc))) = doc.
Proof.
  induction doc as [|c doc IH]; intros H; [reflexivity|].
  cbn [forallb] in H. apply andb_prop in H. destruct H as [Hc Hdoc].
  unfold carried in Hc. apply andb_prop in Hc. destruct Hc as [Hse Htext].
  apply andb_prop in Hse. destruct Hse as [Hs He].
  apply N.ltb_lt in Hs, He.
  cbn [map concat]. unfold block at 1. rewrite <- !app_assoc.
  rewrite !lines_app, lines_nl, lines_timing_line.
  cbn [app parse_lines]. rewrite (parse_timing_timing_line c Hs He).
  cbn [close app].
  destruct c as [[|x t] s e]; cbn [text start_ms end_ms] in *.
  - change (lines []) with [@nil N]. cbn [app parse_lines].
    change (parse_timing []) with (@None (N * N)).
    change (blank []) with true.
    cbn [close app]. now rewrite (IH Hdoc).
  - rewrite (parse_lines_text _ _ [] _ _ Htext).
    cbn [app]. now rewrite join_lines, (IH Hdoc).
Qed.

(** C9, as the specification states it, fails.  The synthesizer makes,
    from a translated text of three words, a cue whose text reads as a
    timestamp line: serialized, it is parsed as two cues without text.
    A text with an empty line in it is cut at that line, and an offset
    of 100 hours does not come back from the two digits of its hours. *)
Lemma roundtrip_broken :
  map of_synthesized (Subtitles.subtitlesWithTimestamps Sample.timestamp_words) =
    [ {| text := Sample.timestamp_words; start_ms := 0; end_ms := 2000 |} ] /\
  parse (serialize
           [ {| text := Sample.timestamp_words; start_ms := 0; end_ms := 2000 |} ]) =
    [ {| text := []; start_ms := 0; end_ms := 2000 |};
      {| text := []; start_ms := 1000; end_ms := 2000 |} ] /\
  parse (serialize
           [ {| text := js "uno" ++ nl ++ nl ++ js "dos";
                start_ms := 0; end_ms := 2000 |} ]) =
    [ {| text := js "uno"; start_ms := 0; end_ms := 2000 |} ] /\
  parse (serialize [ {| text := js "uno"; start_ms := 0; end_ms := 360000000 |} ]) =
    [ {| text := js "uno"; start_ms := 0; end_ms := 0 |} ].
Proof. repeat split; vm_compute; reflexivity. Qed.

(** C9, amended.  Parsing what the serializer writes gives the cues
    back for every document whose cues have offsets below 100 hours and
    a text that is empty or made of lines that are neither blank nor
    timestamp lines. *)
Theorem roundtrip_carried doc :
  forallb carried doc = true -> parse (serialize doc) = doc.
Proof.
  intros H. unfold parse, serialize.
  rewrite lines_app, lines_nl.
  change (lines (js "WEBVTT")) with [js "WEBVTT"].
  cbn [app parse_lines].
  change (parse_timing (js "WEBVTT")) with (@None (N * N)).
  change (blank (js "WEBVTT")) with false.
  change (parse_timing []) with (@None (N * N)).
  change (blank []) with true.
  cbn [close app]. now apply parse_lines_blocks.
Qed.

Lemma roundtrip_carried_witness :
  parse (serialize
           [ {| text := js "hola" ++ nl ++ js "mundo"; start_ms := 0; end_ms := 2500 |};
             {| text := js "adios"; start_ms := 3723004; end_ms := 359999999 |} ]) =
  [ {| text := js "hola" ++ nl ++ js "mundo"; start_ms := 0; end_ms := 2500 |};
    {| text := js "adios"; start_ms := 3723004; end_ms := 359999999 |} ].
Proof.
  apply (roundtrip_carried
           [ {| text := js "hola" ++ nl ++ js "mundo"; start_ms := 0; end_ms := 2500 |};
             {| text := js "adios"; start_ms := 3723004; end_ms := 359999999 |} ]).
  vm_compute. reflexivity.
Defined.

End WireFormat.

(** * Further properties of the code *)

(** ** The link of /api/generate *)

Section VideoID.

Import Generate.

Lemma takeWhile_dropWhile (f : N -> bool) (s : jsstring) :
  s = takeWhile f s ++ dropWhile f s.
Proof.
  induction s as [|c s IH]; [reflexivity|]. cbn.
  destruct (f c); [cbn; now f_equal | reflexivity].
Qed.

Lemma forallb_takeWhile (f : N -> bool) (s : jsstring) :
  forallb f (takeWhile f s) = true.
Proof.
  induction s as [|c s IH]; [reflexivity|]. cbn.
  destruct (f c) eqn:E; [cbn; now rewrite E | reflexivity].
Qed.

Lemma takeWhile_all (f : N -> bool) (g after : jsstring) :
  forallb f g = true ->
  match after with [] => True | c :: _ => f c = false end ->
  takeWhile f (g ++ after) = g.
Proof.
  intros Hg Ha. induction g as [|c g IH].
  - destruct after as [|a after]; [reflexivity|]. cbn. now rewrite Ha.
  - cbn [forallb] in Hg. apply andb_prop in Hg. destruct Hg as [Hc Hg].
    cbn. rewrite Hc. f_equal. now apply IH.
Qed.

Lemma skipn_length_app (p s : jsstring) : skipn (length p) (p ++ s) = s.
Proof. induction p as [|a p IH]; [reflexivity | exact IH]. Qed.

Lemma group_after_found prefix s g :
  group_after prefix s = Some g ->
  g <> [] /\ forallb id_char g = true /\
  exists after,
    s = prefix ++ g ++ after /\
    match after with [] => True | c :: _ => id_char c = false end.
Proof.
  unfold group_after. destruct (startsWith prefix s) eqn:E; [|discriminate].
  apply startsWith_spec in E. destruct E as [b ->].
  rewrite skipn_length_app.
  pose proof (takeWhile_dropWhile id_char b) as Hb.
  pose proof (forallb_takeWhile id_char b) as Hall.
  pose proof (dropWhile_head (fun c => id_char c) b) as Hhead.
  destruct (takeWhile id_char b) as [|c g'] eqn:Et; [discriminate|].
  intros [= <-]. split; [discriminate|]. split; [exact Hall|].
  exists (dropWhile id_char b). split; [now rewrite Hb at 1 | exact Hhead].
Qed.

(** X1.  What the route takes for the video identifier is not empty, has
    no [&] and no [?], stands in the link right after [v=] or
    [youtu.be/], and runs to the end of the link or to the first [&] or
    [?]. *)
Theorem videoIDMatch_found url videoID :
  videoIDMatch url = Some videoID ->
  videoID <> [] /\
  forallb id_char videoID = true /\
  exists before marker after,
    url = before ++ marker ++ videoID ++ after /\
    (marker = js "v=" \/ marker = js "youtu.be/") /\
    match after with [] => True | c :: _ => id_char c = false end.
Proof.
  induction url as [|c url IH]; cbn [videoIDMatch]; unfold match_here.
  - cbn. discriminate.
  - destruct (group_after (js "v=") (c :: url)) as [g|] eqn:E1.
    { intros [= <-]. destruct (group_after_found _ _ _ E1) as (H1 & H2 & after & H3 & H4).
      repeat split; try assumption. exists [], (js "v="), after. auto. }
    destruct (group_after (js "youtu.be/") (c :: url)) as [g|] eqn:E2.
    { intros [= <-]. destruct (group_after_found _ _ _ E2) as (H1 & H2 & after & H3 & H4).
      repeat split; try assumption. exists [], (js "youtu.be/"), after. auto. }
    intros H. destruct (IH H) as (H1 & H2 & before & marker & after & H3 & H4 & H5).
    repeat split; try assumption.
    exists (c :: before), marker, after. rewrite H3. auto.
Qed.

Lemma videoIDMatch_found_witness :
  videoIDMatch (js "https://www.youtube.com/watch?v=dQw4w9WgXcQ&t=42s")
    = Some (js "dQw4w9WgXcQ") /\
  js "dQw4w9WgXcQ" <> [].
Proof.
  split; [reflexivity|].
  apply (videoIDMatch_found
           (js "https://www.youtube.com/watch?v=dQw4w9WgXcQ&t=42s")
           (js "dQw4w9WgXcQ")).
  reflexivity.
Defined.

Lemma group_after_absent prefix s :
  startsWith prefix s = false -> group_after prefix s = None.
Proof. unfold group_after. now intros ->. Qed.

Lemma videoIDMatch_absent url :
  includes (js "v=") url = false ->
  includes (js "youtu.be/") url = false ->
  videoIDMatch url = None.
Proof.
  induction url as [|c url IH]; intros H1 H2; [reflexivity|].
  rewrite includes_unfold in H1, H2.
  apply orb_false_elim in H1, H2. destruct H1 as [S1 I1], H2 as [S2 I2].
  cbn [videoIDMatch]. unfold match_here.
  rewrite (group_after_absent _ _ S1), (group_after_absent _ _ S2).
  now apply IH.
Qed.

Variable getSubtitles : jsstring -> jsstring -> js_result (option (list caption)).
Variable displayNameOf : jsstring -> js_result jsstring.
Variable generateContent : jsstring -> js_result jsstring.

Lemma respond_invalid req :
  falsy (youtubeUrl req) = false ->
  falsy (language req) = false ->
  videoIDMatch (string_of (youtubeUrl req)) = None ->
  respond getSubtitles displayNameOf generateContent req =
  ({| status := 400; body := JsonMessage (js "Invalid YouTube URL format.") |}, []).
Proof.
  intros Hu Hl Hid. unfold Generate.respond, run, generate.
  rewrite Hu, Hl, Hid. reflexivity.
Qed.

(** X2.  A link with neither [v=] nor [youtu.be/] in it is refused with
    status 400 and the message of the invalid format, before any
    external call. *)
Theorem link_without_marker_refused req :
  falsy (youtubeUrl req) = false ->
  falsy (language req) = false ->
  includes (js "v=") (string_of (youtubeUrl req)) = false ->
  includes (js "youtu.be/") (string_of (youtubeUrl req)) = false ->
  respond getSubtitles displayNameOf generateContent req =
  ({| status := 400; body := JsonMessage (js "Invalid YouTube URL format.") |}, []).
Proof.
  intros Hu Hl H1 H2. apply respond_invalid; try assumption.
  now apply videoIDMatch_absent.
Qed.

(** X3.  When the caption fetch throws, the response is status 500 with
    the message of the error in [details], and no translation is
    requested. *)
Theorem caption_fetch_failure req videoID e :
  accepted req videoID ->
  getSubtitles videoID (js "en") = Throws e ->
  respond getSubtitles displayNameOf generateContent req =
  ({| status := 500;
      body := JsonMessageDetails (js "An internal server error occurred.") e |},
   [GetSubtitles videoID (js "en")]).
Proof.
  intros (Hu & Hl & Hid) Hc.
  unfold Generate.respond, run, generate, bind, await, attempt.
  rewrite Hu, Hl, Hid. cbn [orb app]. rewrite Hc. reflexivity.
Qed.

(** X4.  When the name of the language cannot be looked up (the lookup
    throws on a malformed tag), the captions have been fetched already,
    the response is status 500 with the message of the error, and no
    translation is requested. *)
Theorem language_name_failure req videoID captions e :
  accepted req videoID ->
  getSubtitles videoID (js "en") = Returns (Some captions) ->
  captions <> [] ->
  displayNameOf (string_of (language req)) = Throws e ->
  respond getSubtitles displayNameOf generateContent req =
  ({| status := 500;
      body := JsonMessageDetails (js "An internal server error occurred.") e |},
   [GetSubtitles videoID (js "en")]).
Proof.
  intros (Hu & Hl & Hid) Hc Hne Hn.
  unfold Generate.respond, run, generate, bind, await, attempt.
  rewrite Hu, Hl, Hid. cbn [orb app]. rewrite Hc.
  destruct captions as [|c captions]; [congruence|].
  cbn -[prompt transcript vttContent js]. rewrite Hn. reflexivity.
Qed.

(** X5.  When the translation call throws, the response is status 500
    with the message of the error in [details]; nothing of a document is
    sent. *)
Theorem translation_failure req videoID captions languageName e :
  accepted req videoID ->
  getSubtitles videoID (js "en") = Returns (Some captions) ->
  captions <> [] ->
  displayNameOf (string_of (language req)) = Returns languageName ->
  generateContent (prompt languageName (transcript captions)) = Throws e ->
  respond getSubtitles displayNameOf generateContent req =
  ({| status := 500;
      body := JsonMessageDetails (js "An internal server error occurred.") e |},
   [GetSubtitles videoID (js "en");
    GenerateContent (prompt languageName (transcript captions))]).
Proof.
  intros (Hu & Hl & Hid) Hc Hne Hn Hg.
  unfold Generate.respond, run, generate, bind, await, attempt.
  rewrite Hu, Hl, Hid. cbn [orb app]. rewrite Hc.
  destruct captions as [|c captions]; [congruence|].
  cbn -[prompt transcript vttContent js]. rewrite Hn.
  cbn -[prompt transcript vttContent js]. rewrite Hg. reflexivity.
Qed.

(** The three ways in which a run on a request of strings ends. *)
Lemma respond_shape req :
  let (response, log) := respond getSubtitles displayNameOf generateContent req in
  (status response = 400%N /\ log = []) \/
  (exists videoID,
     (status response = 404%N \/ status response = 500%N) /\
     log = [GetSubtitles videoID (js "en")]) \/
  (exists videoID prompt,
     (status response = 200%N \/ status response = 500%N) /\
     log = [GetSubtitles videoID (js "en"); GenerateContent prompt]).
Proof.
  unfold Generate.respond, run, generate, bind, await, attempt.
  destruct (falsy (youtubeUrl req) || falsy (language req)); [left; now split|].
  destruct (videoIDMatch _) as [videoID|]; [|left; now split].
  cbn [app].
  destruct (getSubtitles videoID (js "en")) as [[[|c captions]|]|e];
    cbn -[prompt transcript vttContent js];
    try (right; left; exists videoID; split; [auto | reflexivity]).
  destruct (displayNameOf _) as [languageName|e];
    cbn -[prompt transcript vttContent js];
    try (right; left; exists videoID; split; [auto | reflexivity]).
  destruct (generateContent _) as [text|e];
    cbn -[prompt transcript vttContent js];
    right; right; eexists videoID, _; split; try reflexivity; auto.
Qed.

End VideoID.

Section VideoIDRuns.

Import Generate.

Lemma link_without_marker_refused_witness :
  respond (Sample.getSubtitles (Some Sample.captions)) Sample.displayNameOf
    (Sample.generateContent Sample.fenced_payload)
    {| youtubeUrl := Some (js "https://www.youtube.com/embed/dQw4w9WgXcQ");
       language := Some (js "es") |} =
  ({| status := 400; body := JsonMessage (js "Invalid YouTube URL format.") |}, []).
Proof.
  apply (link_without_marker_refused
           (Sample.getSubtitles (Some Sample.captions)) Sample.displayNameOf
           (Sample.generateContent Sample.fenced_payload)
           {| youtubeUrl := Some (js "https://www.youtube.com/embed/dQw4w9WgXcQ");
              language := Some (js "es") |}); reflexivity.
Defined.

Lemma caption_fetch_failure_witness :
  respond (fun _ _ => Throws (js "timeout")) Sample.displayNameOf
    (Sample.generateContent Sample.fenced_payload)
    (Sample.generate_request (js "es")) =
  ({| status := 500;
      body := JsonMessageDetails (js "An internal server error occurred.")
                (js "timeout") |},
   [GetSubtitles Sample.id (js "en")]).
Proof.
  apply (caption_fetch_failure (fun _ _ => Throws (js "timeout"))
           Sample.displayNameOf (Sample.generateContent Sample.fenced_payload)
           (Sample.generate_request (js "es")) Sample.id (js "timeout")).
  - repeat split.
  - reflexivity.
Defined.

Lemma language_name_failure_witness :
  respond (Sample.getSubtitles (Some Sample.captions))
    (fun _ => Throws (js "Invalid argument for language code"))
    (Sample.generateContent Sample.fenced_payload)
    (Sample.generate_request (js "zh_CN")) =
  ({| status := 500;
      body := JsonMessageDetails (js "An internal server error occurred.")
                (js "Invalid argument for language code") |},
   [GetSubtitles Sample.id (js "en")]).
Proof.
  apply (language_name_failure (Sample.getSubtitles (Some Sample.captions))
           (fun _ => Throws (js "Invalid argument for language code"))
           (Sample.generateContent Sample.fenced_payload)
           (Sample.generate_request (js "zh_CN")) Sample.id Sample.captions
           (js "Invalid argument for language code")).
  - repeat split.
  - reflexivity.
  - discriminate.
  - reflexivity.
Defined.

Lemma translation_failure_witness :
  fst (respond (Sample.getSubtitles (Some Sample.captions)) Sample.displayNameOf
         (fun _ => Throws (js "quota exceeded"))
         (Sample.generate_request (js "es"))) =
  {| status := 500;
     body := JsonMessageDetails (js "An internal server error occurred.")
               (js "quota exceeded") |}.
Proof.
  rewrite (translation_failure (Sample.getSubtitles (Some Sample.captions))
             Sample.displayNameOf (fun _ => Throws (js "quota exceeded"))
             (Sample.generate_request (js "es")) Sample.id Sample.captions
             (js "es") (js "quota exceeded")).
  - reflexivity.
  - repeat split.
  - reflexivity.
  - discriminate.
  - reflexivity.
  - reflexivity.
Defined.

End VideoIDRuns.

(** ** The clean-up, applied again *)

Section CleanAgain.

Import Generate.

Lemma cleaned_fixpoint v :
  includes fence v = false -> trim v = v -> cleaned v = v.
Proof.
  intros Hf Ht. unfold cleaned.
  rewrite (removeAll_absent fence_vtt v) by now apply includes_fence_vtt.
  now rewrite (removeAll_absent fence v).
Qed.

Lemma rev_head_app (a b : jsstring) (d : N) (u : jsstring) :
  rev b = d :: u -> exists u', rev (a ++ b) = d :: u'.
Proof. intros H. rewrite rev_app_distr, H. now eexists. Qed.

(** X7.  The clean-up is idempotent on every payload that has something
    left after the fences and the white space are removed: cleaning the
    document again gives the same document. *)
Theorem vttContent_idempotent text :
  cleaned text <> [] ->
  vttContent (vttContent text) = vttContent text.
Proof.
  intros Hne.
  pose proof (includes_fence_vttContent text) as Hf.
  pose proof (startsWith_vttContent text) as Hw.
  assert (trim (vttContent text) = vttContent text) as Ht.
  { unfold vttContent in *. destruct (startsWith WEBVTT (cleaned text)).
    - apply trim_idempotent.
    - pose proof (trim_last (removeAll fence (removeAll fence_vtt text))) as Hlast.
      fold (cleaned text) in Hlast.
      apply trim_id; [reflexivity|].
      destruct (rev (cleaned text)) as [|d u] eqn:Er.
      + apply (f_equal (@rev N)) in Er. rewrite rev_involutive in Er.
        cbn in Er. congruence.
      + destruct (rev_head_app (WEBVTT ++ nl ++ nl) (cleaned text) d u Er)
          as [u' Hu'].
        rewrite <- !app_assoc in Hu'. now rewrite Hu'. }
  now apply vttContent_clean.
Qed.

Lemma vttContent_idempotent_witness :
  vttContent (vttContent Sample.fenced_payload) = vttContent Sample.fenced_payload.
Proof.
  apply (vttContent_idempotent Sample.fenced_payload). vm_compute. discriminate.
Defined.

(** X8.  A payload of which nothing is left (empty, or white space and
    fences only) becomes the header followed by two line feeds; cleaned
    again, that document loses the line feeds: it is the one case in
    which the clean-up is not idempotent. *)
Theorem vttContent_of_nothing text :
  cleaned text = [] ->
  vttContent text = WEBVTT ++ nl ++ nl /\
  vttContent (vttContent text) = WEBVTT /\
  vttContent (vttContent text) <> vttContent text.
Proof.
  intros H.
  assert (vttContent text = WEBVTT ++ nl ++ nl) as E.
  { unfold vttContent. rewrite H. reflexivity. }
  rewrite E. repeat split. discriminate.
Qed.

Lemma vttContent_of_nothing_witness :
  vttContent (js "```vtt" ++ nl ++ js "```" ++ nl) = WEBVTT ++ nl ++ nl.
Proof.
  apply (vttContent_of_nothing (js "```vtt" ++ nl ++ js "```" ++ nl)).
  reflexivity.
Defined.

(** X9.  The transcript of two runs of captions put end to end is the
    transcript of the first, a space, and the transcript of the second:
    the order of the fragments is the order of the text. *)
Theorem transcript_app (first second : list caption) :
  first <> [] -> second <> [] ->
  transcript (first ++ second) = transcript first ++ js " " ++ transcript second.
Proof.
  intros H1 H2. unfold transcript.
  destruct first as [|a first]; [congruence|].
  destruct second as [|b second]; [congruence|].
  cbn [app map]. rewrite !join_cons, map_app, map_app, concat_app.
  cbn [map concat]. now rewrite <- !app_assoc.
Qed.

Lemma transcript_app_witness :
  transcript (Sample.captions ++ Sample.captions) =
  js "never gonna give you up never gonna give you up".
Proof.
  rewrite (transcript_app Sample.captions Sample.captions); try discriminate.
  reflexivity.
Defined.

End CleanAgain.

(** ** The route /api/subtitles: failures and runs *)

Section PlainRuns.

Import Subtitles.

Variable getInfo : jsstring -> js_result videoDetails.
Variable generateContent : jsstring -> js_result jsstring.

(** X10.  When the metadata fetch throws, the response is status 500
    with the fixed message of the route (the message of the error is not
    sent), and no translation is requested. *)
Theorem metadata_failure req e :
  falsy (videoId req) = false ->
  falsy (language req) = false ->
  getInfo (string_of (videoId req)) = Throws e ->
  respond getInfo generateContent req =
  ({| status := 500;
      body := JsonError (js "Failed to generate subtitles. Please check the video link and try again.") |},
   [GetInfo (string_of (videoId req))]).
Proof.
  intros Hv Hl Hi.
  unfold Subtitles.respond, run, subtitles, bind, await, attempt.
  rewrite Hv, Hl. cbn [orb app]. rewrite Hi. reflexivity.
Qed.

(** X11.  When the translation call throws, the response is status 500
    with the same fixed message, and no cue is sent. *)
Theorem plain_translation_failure req videoInfo e :
  falsy (videoId req) = false ->
  falsy (language req) = false ->
  getInfo (string_of (videoId req)) = Returns videoInfo ->
  generateContent (prompt (string_of (language req)) (title videoInfo)) = Throws e ->
  respond getInfo generateContent req =
  ({| status := 500;
      body := JsonError (js "Failed to generate subtitles. Please check the video link and try again.") |},
   [GetInfo (string_of (videoId req));
    GenerateContent (prompt (string_of (language req)) (title videoInfo))]).
Proof.
  intros Hv Hl Hi Hg.
  unfold Subtitles.respond, run, subtitles, bind, await, attempt.
  rewrite Hv, Hl. cbn [orb app]. rewrite Hi.
  cbn -[prompt subtitlesWithTimestamps js]. rewrite Hg. reflexivity.
Qed.

(** X12.  Every run of the route ends in one of three ways: status 400
    and no call; status 500 after the metadata fetch alone; status 200
    or 500 after that fetch and one translation request, in this order.
    The video is looked up under the identifier of the request as it
    came. *)
Theorem subtitles_run_shape req :
  let (response, log) := respond getInfo generateContent req in
  (status response = 400%N /\ log = []) \/
  (status response = 500%N /\ log = [GetInfo (string_of (videoId req))]) \/
  (exists prompt,
     (status response = 200%N \/ status response = 500%N) /\
     log = [GetInfo (string_of (videoId req)); GenerateContent prompt]).
Proof.
  unfold Subtitles.respond, run, subtitles, bind, await, attempt.
  destruct (falsy (videoId req) || falsy (language req)); [left; now split|].
  cbn [app].
  destruct (getInfo _) as [videoInfo|e];
    cbn -[prompt subtitlesWithTimestamps js]; [|right; left; now split].
  destruct (generateContent _) as [text|e];
    cbn -[prompt subtitlesWithTimestamps js];
    right; right; eexists; split; try reflexivity; auto.
Qed.

End PlainRuns.

Section PlainRunsWitnesses.

Import Subtitles.

Lemma metadata_failure_witness :
  respond (fun _ => Throws (js "Video unavailable"))
    (Sample.generateContent (js "hola")) (Sample.subtitles_request (js "es")) =
  ({| status := 500;
      body := JsonError (js "Failed to generate subtitles. Please check the video link and try again.") |},
   [GetInfo Sample.id]).
Proof.
  apply (metadata_failure (fun _ => Throws (js "Video unavailable"))
           (Sample.generateContent (js "hola")) (Sample.subtitles_request (js "es"))
           (js "Video unavailable")); reflexivity.
Defined.

Lemma plain_translation_failure_witness :
  fst (respond (Sample.getInfo (js "10")) (fun _ => Throws (js "quota exceeded"))
         (Sample.subtitles_request (js "es"))) =
  {| status := 500;
     body := JsonError (js "Failed to generate subtitles. Please check the video link and try again.") |}.
Proof.
  rewrite (plain_translation_failure (Sample.getInfo (js "10"))
             (fun _ => Throws (js "quota exceeded"))
             (Sample.subtitles_request (js "es"))
             {| title := js "A video"; lengthSeconds := js "10" |}
             (js "quota exceeded")); reflexivity.
Defined.

End PlainRunsWitnesses.

(** ** The synthesizer: what the cues hold *)

Section Cues.

Import Subtitles.

Lemma groups_step n i :
  (i < n)%nat ->
  (S (Measure.groups (n - (i + 5))) = Measure.groups (n - i))%nat.
Proof.
  intros H. unfold Measure.groups.
  destruct (le_lt_dec (i + 5) n) as [Hle|Hgt].
  - replace (n - i + 4)%nat with (n - (i + 5) + 4 + 1 * 5)%nat by lia.
    rewrite Nat.div_add by discriminate. lia.
  - replace (n - (i + 5))%nat with 0%nat by lia.
    replace (n - i + 4)%nat with ((n - i - 1) + 1 * 5)%nat by lia.
    rewrite Nat.div_add by discriminate.
    rewrite (Nat.div_small (n - i - 1)) by lia. reflexivity.
Qed.

Lemma groups_none n i : ~ (i < n)%nat -> Measure.groups (n - i) = 0%nat.
Proof. intros H. replace (n - i)%nat with 0%nat by lia. reflexivity. Qed.

(** The cues the loop adds: at most one for each group it visits, each
    the text of a group that is not blank. *)
Lemma loop_groups (ws : list jsstring) (wordIndex : nat) t subs :
  exists news,
    loop ws wordIndex t subs = subs ++ news /\
    (length news <= Measure.groups (length ws - wordIndex))%nat /\
    Forall (fun c => trim (text c) <> [] /\
                     exists k, (wordIndex <= k < length ws)%nat /\
                               text c = subtitleText ws k) news.
Proof.
  remember (length ws - wordIndex)%nat as n eqn:Hn.
  revert wordIndex t subs Hn.
  induction n as [n IH] using lt_wf_ind. intros wordIndex t subs Hn.
  destruct (lt_dec wordIndex (length ws)) as [Hlt|Hge].
  - assert (forall t' subs',
              exists news,
                loop ws (wordIndex + 5) t' subs' = subs' ++ news /\
                (length news <= Measure.groups (length ws - (wordIndex + 5)))%nat /\
                Forall (fun c => trim (text c) <> [] /\
                                 exists k, (wordIndex + 5 <= k < length ws)%nat /\
                                           text c = subtitleText ws k) news) as IH'.
    { intros t' subs'.
      apply (IH (length ws - (wordIndex + 5))%nat); [lia | reflexivity]. }
    assert (forall news,
              Forall (fun c => trim (text c) <> [] /\
                               exists k, (wordIndex + 5 <= k < length ws)%nat /\
                                         text c = subtitleText ws k) news ->
              Forall (fun c => trim (text c) <> [] /\
                               exists k, (wordIndex <= k < length ws)%nat /\
                                         text c = subtitleText ws k) news) as Hweak.
    { intros news. apply Forall_impl. intros c (Hc & k & Hk & Ht).
      split; [exact Hc|]. exists k. split; [lia | exact Ht]. }
    subst n. rewrite <- (groups_step (length ws) wordIndex Hlt).
    destruct (list_eq_dec N.eq_dec (trim (subtitleText ws wordIndex)) [])
      as [E|E].
    + rewrite (loop_skip ws wordIndex t subs Hlt E).
      destruct (IH' t subs) as (news & -> & Hlen & Hall).
      exists news. split; [reflexivity|]. split; [lia | now apply Hweak].
    + rewrite (loop_push ws wordIndex t subs Hlt E).
      destruct (IH' (t + 2)%Z
                  (subs ++ [ {| text := subtitleText ws wordIndex;
                                start := t; end_ := (t + 2)%Z |} ]))
        as (news & -> & Hlen & Hall).
      eexists. rewrite <- app_assoc. split; [reflexivity|].
      cbn [app length]. split; [lia|].
      constructor; [|now apply Hweak].
      split; [exact E|]. exists wordIndex. split; [lia | reflexivity].
  - rewrite (loop_done ws wordIndex t subs Hge). exists [].
    rewrite app_nil_r. repeat split; [cbn; lia | constructor].
Qed.

(** X13.  The synthesizer never sends a blank cue: the text of every
    cue has something other than white space, and is the words of one
    group of the translated text joined with single spaces; there are
    at most as many cues as groups of five words. *)
Theorem cues_not_blank translatedText :
  let ws := words translatedText in
  let cues := subtitlesWithTimestamps translatedText in
  Forall (fun c => trim (text c) <> [] /\
                   exists k, (k < length ws)%nat /\
                             text c = join (js " ") (slice ws k (k + 5))) cues /\
  (length cues <= Measure.groups (length ws))%nat.
Proof.
  cbn zeta. unfold subtitlesWithTimestamps.
  destruct (loop_groups (words translatedText) 0 0 []) as (news & -> & Hlen & Hall).
  cbn [app]. rewrite Nat.sub_0_r in Hlen. split; [|exact Hlen].
  revert Hall. apply Forall_impl. intros c (Hc & k & Hk & Ht).
  split; [exact Hc|]. exists k. split; [lia | exact Ht].
Qed.

Lemma split_go_blank s :
  forallb is_space s = true -> split_go true [] s = [[]].
Proof.
  induction s as [|c s IH]; [reflexivity|]. cbn. intros H.
  apply andb_prop in H. destruct H as [-> H]. now apply IH.
Qed.

(** X14.  A translated text that is empty or white space only gives no
    cue at all: the response is status 200 with an empty list. *)
Theorem blank_text_no_cues getInfo generateContent req videoInfo translatedText :
  falsy (videoId req) = false ->
  falsy (language req) = false ->
  getInfo (string_of (videoId req)) = Returns videoInfo ->
  generateContent (prompt (string_of (language req)) (title videoInfo))
    = Returns translatedText ->
  forallb is_space translatedText = true ->
  fst (respond getInfo generateContent req) =
  {| status := 200; body := JsonSubtitles [] |}.
Proof.
  intros Hv Hl Hi Hg Hblank.
  rewrite (respond_subtitles getInfo generateContent req _ _ Hv Hl Hi Hg).
  cbn [fst]. f_equal. f_equal.
  unfold subtitlesWithTimestamps, words, split_ws.
  destruct translatedText as [|c s]; [reflexivity|].
  cbn [forallb] in Hblank. apply andb_prop in Hblank. destruct Hblank as [Hc Hs].
  cbn [split_go]. rewrite Hc, (split_go_blank s Hs). reflexivity.
Qed.

Lemma blank_text_no_cues_witness :
  fst (respond (Sample.getInfo (js "10")) (Sample.generateContent (js "  " ++ nl))
         (Sample.subtitles_request (js "es"))) =
  {| status := 200; body := JsonSubtitles [] |}.
Proof.
  apply (blank_text_no_cues (Sample.getInfo (js "10"))
           (Sample.generateContent (js "  " ++ nl))
           (Sample.subtitles_request (js "es"))
           {| title := js "A video"; lengthSeconds := js "10" |}
           (js "  " ++ nl)); reflexivity.
Defined.

End Cues.

Section WordsKept.

Import Subtitles.

Lemma concat_sep_join (sep : jsstring) (l : list jsstring) :
  l <> [] -> concat (map (app sep) l) = sep ++ join sep l.
Proof.
  destruct l as [|x l]; [congruence|]. intros _.
  rewrite join_cons. cbn [map concat]. now rewrite <- app_assoc.
Qed.

Lemma join_app (sep : jsstring) (a b : list jsstring) :
  a <> [] -> b <> [] -> join sep (a ++ b) = join sep a ++ sep ++ join sep b.
Proof.
  intros Ha Hb. destruct a as [|x a]; [congruence|].
  cbn [app]. rewrite (join_cons sep x (a ++ b)), (join_cons sep x a).
  rewrite map_app, concat_app, <- app_assoc.
  do 2 f_equal. now apply concat_sep_join.
Qed.

Lemma ends_solid_tail c s :
  is_space c = true -> Measure.ends_solid (c :: s) -> Measure.ends_solid s.
Proof.
  intros Hc (u & d & E & Hd). destruct u as [|x u]; cbn in E.
  - injection E as -> _. congruence.
  - injection E as _ ->. now exists u, d.
Qed.

Lemma ends_solid_after cur c s :
  is_space c = true -> Measure.ends_solid (cur ++ c :: s) -> Measure.ends_solid s.
Proof.
  intros Hc. induction cur as [|x cur IH]; cbn [app]; intros H.
  - now apply (ends_solid_tail c).
  - apply IH. destruct H as (u & d & E & Hd).
    destruct u as [|y u]; cbn in E.
    + injection E as _ E. destruct cur; discriminate.
    + injection E as _ E. now exists u, d.
Qed.

Lemma split_go_solid in_ws cur s :
  Measure.ends_solid (cur ++ s) ->
  (in_ws = true -> cur = []) ->
  (in_ws = false -> cur = [] ->
   match s with c :: _ => is_space c = false | [] => False end) ->
  Forall (fun w => w <> []) (split_go in_ws cur s).
Proof.
  revert in_ws cur. induction s as [|c s IH]; intros in_ws cur Hend Hin Hout.
  - cbn. constructor; [|constructor]. rewrite app_nil_r in Hend.
    destruct Hend as (u & d & -> & _). now destruct u.
  - cbn [split_go]. destruct (is_space c) eqn:Hc.
    + destruct in_ws.
      * rewrite (Hin eq_refl) in *. apply IH; auto; [|discriminate].
        now apply (ends_solid_tail c).
      * assert (cur <> []) as Hcur.
        { intros ->. specialize (Hout eq_refl eq_refl). cbn in Hout. congruence. }
        constructor; [exact Hcur|].
        apply IH; auto; [|discriminate]. now apply (ends_solid_after cur c).
    + apply IH.
      * now rewrite <- app_assoc.
      * discriminate.
      * intros _ E. destruct cur; discriminate.
Qed.

(** The pieces of a text with nothing to trim are all words. *)
Lemma words_of_trimmed translatedText :
  translatedText <> [] ->
  trim translatedText = translatedText ->
  Forall word (words translatedText).
Proof.
  intros Hne Ht.
  pose proof (trim_first translatedText) as Hfirst.
  pose proof (trim_last translatedText) as Hlast.
  rewrite Ht in Hfirst, Hlast.
  assert (Forall (fun w => w <> []) (words translatedText)) as H.
  { apply split_go_solid.
    - cbn [app]. destruct (rev translatedText) as [|d u] eqn:Er.
      + apply (f_equal (@rev N)) in Er. rewrite rev_involutive in Er.
        cbn in Er. congruence.
      + exists (rev u), d. split; [|exact Hlast].
        apply (f_equal (@rev N)) in Er. now rewrite rev_involutive in Er.
    - discriminate.
    - intros _ _. destruct translatedText; [congruence | exact Hfirst]. }
  rewrite Forall_forall in *. intros w Hin.
  apply (words_word translatedText w Hin). now apply H.
Qed.

(** With words only, the loop keeps every group. *)
Lemma loop_all_words (ws : list jsstring) (wordIndex : nat) t subs :
  Forall word ws ->
  exists news,
    loop ws wordIndex t subs = subs ++ news /\
    length news = Measure.groups (length ws - wordIndex) /\
    join (js " ") (map text news) = join (js " ") (skipn wordIndex ws).
Proof.
  intros Hws. remember (length ws - wordIndex)%nat as n eqn:Hn.
  revert wordIndex t subs Hn.
  induction n as [n IH] using lt_wf_ind. intros wordIndex t subs Hn.
  destruct (lt_dec wordIndex (length ws)) as [Hlt|Hge].
  - assert (trim (subtitleText ws wordIndex) <> []) as E.
    { apply group_kept. rewrite Forall_forall in Hws. apply Hws.
      now apply nth_In. }
    rewrite (loop_push ws wordIndex t subs Hlt E).
    destruct (IH (length ws - (wordIndex + 5))%nat ltac:(lia)
                (wordIndex + 5)%nat (t + 2)%Z
                (subs ++ [ {| text := subtitleText ws wordIndex;
                              start := t; end_ := (t + 2)%Z |} ]) eq_refl)
      as (news & -> & Hlen & Hjoin).
    eexists. rewrite <- app_assoc. split; [reflexivity|].
    subst n. rewrite <- (groups_step (length ws) wordIndex Hlt).
    cbn [app length map text]. split; [now rewrite Hlen|].
    assert (skipn wordIndex ws =
            slice ws wordIndex (wordIndex + 5) ++ skipn (wordIndex + 5) ws) as Hcut.
    { unfold slice. replace (wordIndex + 5 - wordIndex)%nat with 5%nat by lia.
      rewrite (Nat.add_comm wordIndex 5), <- skipn_skipn.
      now rewrite firstn_skipn. }
    assert (slice ws wordIndex (wordIndex + 5) <> []) as Hgroup.
    { unfold slice. replace (wordIndex + 5 - wordIndex)%nat with 5%nat by lia.
      intros Hnil. apply (f_equal (@length jsstring)) in Hnil.
      rewrite length_firstn, length_skipn in Hnil. cbn [length] in Hnil. lia. }
    rewrite Hcut. unfold subtitleText at 1.
    destruct (le_lt_dec (length ws) (wordIndex + 5)) as [Hlast|Hmore].
    + rewrite (skipn_all2 ws Hlast), app_nil_r.
      replace (length ws - (wordIndex + 5))%nat with 0%nat in Hlen by lia.
      destruct news; [reflexivity | discriminate].
    + assert (skipn (wordIndex + 5) ws <> []) as Hrest.
      { intros Hnil. apply (f_equal (@length jsstring)) in Hnil.
        rewrite length_skipn in Hnil. cbn [length] in Hnil. lia. }
      rewrite (join_app _ _ _ Hgroup Hrest), <- Hjoin.
      rewrite join_cons. rewrite concat_sep_join; [reflexivity|].
      destruct news as [|c news]; [|discriminate].
      rewrite <- (groups_step (length ws) (wordIndex + 5) Hmore) in Hlen.
      discriminate.
  - rewrite (loop_done ws wordIndex t subs Hge). exists [].
    subst n. rewrite app_nil_r, (groups_none _ _ Hge), skipn_all2 by lia.
    repeat split.
Qed.

(** X15.  For a translated text that is not empty and has no white
    space around it, no word is lost and none is moved: there is one
    cue for each group of five words, and the texts of the cues, joined
    with spaces, are the words of the text joined with spaces. *)
Theorem synthesized_words_kept translatedText :
  translatedText <> [] ->
  trim translatedText = translatedText ->
  let cues := subtitlesWithTimestamps translatedText in
  length cues = Measure.groups (length (words translatedText)) /\
  join (js " ") (map text cues) = join (js " ") (words translatedText).
Proof.
  intros Hne Ht. cbn zeta. unfold subtitlesWithTimestamps.
  destruct (loop_all_words (words translatedText) 0 0 []
              (words_of_trimmed translatedText Hne Ht))
    as (news & -> & Hlen & Hjoin).
  cbn [app]. rewrite Nat.sub_0_r in Hlen. now split.
Qed.

Lemma synthesized_words_kept_witness :
  length (subtitlesWithTimestamps Sample.spanish_words) = 5%nat /\
  join (js " ") (map text (subtitlesWithTimestamps Sample.spanish_words)) =
  join (js " ") (words Sample.spanish_words).
Proof.
  apply (synthesized_words_kept Sample.spanish_words).
  - discriminate.
  - vm_compute. reflexivity.
Defined.

End WordsKept.

(** ** The pages and the routes *)

Section Links.

Import Generate Page.

Lemma id_safe_not (x c : N) :
  id_safe x = false -> id_safe c = true -> (x =? c)%N = false.
Proof.
  intros Hx Hc. destruct (N.eqb_spec x c) as [->|]; [congruence | reflexivity].
Qed.

Lemma id_safe_id_char c : id_safe c = true -> id_char c = true.
Proof.
  intros H. unfold id_char.
  rewrite (N.eqb_sym c 38), (N.eqb_sym c 63).
  now rewrite !(id_safe_not _ c) by (reflexivity || assumption).
Qed.

Lemma id_safe_id_class c : id_safe c = true -> id_class c = true.
Proof.
  intros H. unfold id_class.
  rewrite (N.eqb_sym c 35), (N.eqb_sym c 38), (N.eqb_sym c 63).
  now rewrite !(id_safe_not _ c) by (reflexivity || assumption).
Qed.

Lemma id_safe_dot c : id_safe c = true -> dot c = true.
Proof.
  intros H. unfold dot, is_line_terminator. cbn [existsb].
  rewrite (N.eqb_sym c 10), (N.eqb_sym c 13), (N.eqb_sym c 8232),
          (N.eqb_sym c 8233).
  now rewrite !(id_safe_not _ c) by (reflexivity || assumption).
Qed.

Lemma forallb_impl (f g : N -> bool) (s : jsstring) :
  (forall c, f c = true -> g c = true) -> forallb f s = true -> forallb g s = true.
Proof.
  intros H. induction s as [|c s IH]; [reflexivity|]. cbn. intros Hs.
  apply andb_prop in Hs. destruct Hs as [Hc Hs]. now rewrite (H c Hc), IH.
Qed.

(** A literal with a character that no identifier has does not start a
    string of identifier characters, and is found in such a string only
    before it. *)
Lemma startsWith_nonempty_nil (p : jsstring) (x : N) :
  startsWith (p ++ [x]) [] = false.
Proof. destruct p; reflexivity. Qed.

Lemma startsWith_app_safe (p a t : jsstring) (x : N) :
  id_safe x = false -> forallb id_safe t = true ->
  startsWith (p ++ [x]) (a ++ t) = startsWith (p ++ [x]) a.
Proof.
  intros Hx. revert a t. induction p as [|y p IH]; intros a t Ht.
  - destruct a as [|c a]; [|reflexivity]. cbn [app].
    destruct t as [|c t]; [reflexivity|]. cbn [startsWith forallb] in *.
    apply andb_prop in Ht. destruct Ht as [Hc _].
    now rewrite (id_safe_not x c Hx Hc).
  - destruct a as [|c a].
    + cbn [app]. destruct t as [|c t]; [reflexivity|].
      cbn [startsWith forallb] in *. apply andb_prop in Ht. destruct Ht as [Hc Ht].
      rewrite (IH [] t Ht : startsWith (p ++ [x]) t = _).
      rewrite startsWith_nonempty_nil. apply andb_false_r.
    + cbn [app startsWith]. now rewrite IH.
Qed.

Lemma includes_app_safe (p a t : jsstring) (x : N) :
  id_safe x = false -> forallb id_safe t = true ->
  includes (p ++ [x]) (a ++ t) = includes (p ++ [x]) a.
Proof.
  intros Hx Ht. induction a as [|c a IH].
  - cbn [app]. induction t as [|c t IHt]; [reflexivity|].
    rewrite includes_unfold.
    rewrite (startsWith_app_safe p [] (c :: t) x Hx Ht
             : startsWith (p ++ [x]) (c :: t) = _).
    cbn [forallb] in Ht. apply andb_prop in Ht. destruct Ht as [_ Ht].
    rewrite (IHt Ht). destruct p; reflexivity.
  - cbn [app]. rewrite (includes_unfold _ (c :: a ++ t)), (includes_unfold _ (c :: a)).
    rewrite IH. f_equal.
    apply (startsWith_app_safe p (c :: a) t x Hx Ht).
Qed.

Lemma videoIDMatch_skip (c : N) (s : jsstring) :
  match_here (c :: s) = None -> videoIDMatch (c :: s) = videoIDMatch s.
Proof. intros H. cbn [videoIDMatch]. now rewrite H. Qed.

Lemma group_after_app (prefix g after : jsstring) :
  g <> [] -> forallb id_char g = true ->
  match after with [] => True | c :: _ => id_char c = false end ->
  group_after prefix (prefix ++ g ++ after) = Some g.
Proof.
  intros Hne Hg Ha. unfold group_after.
  rewrite startsWith_app, skipn_length_app, (takeWhile_all id_char g after Hg Ha).
  destruct g; [congruence | reflexivity].
Qed.

Lemma videoIDMatch_here (s : jsstring) (g : jsstring) :
  match_here s = Some g -> videoIDMatch s = Some g.
Proof. intros H. destruct s; cbn [videoIDMatch]; now rewrite H. Qed.

Lemma videoIDMatch_watch (videoID after : jsstring) :
  videoID <> [] ->
  forallb id_char videoID = true ->
  match after with [] => True | c :: _ => id_char c = false end ->
  videoIDMatch (js "https://www.youtube.com/watch?v=" ++ videoID ++ after)
    = Some videoID.
Proof.
  intros Hne Hid Hafter.
  change (js "https://www.youtube.com/watch?v=")
    with (js "https://www.youtube.com/watch?" ++ js "v=").
  rewrite <- app_assoc.
  let v := eval vm_compute in (js "https://www.youtube.com/watch?") in
  change (js "https://www.youtube.com/watch?") with v.
  cbn [app]. rewrite !videoIDMatch_skip by reflexivity.
  apply videoIDMatch_here. unfold match_here.
  now rewrite group_after_app.
Qed.

Lemma videoIDMatch_short (videoID after : jsstring) :
  videoID <> [] ->
  forallb id_char videoID = true ->
  match after with [] => True | c :: _ => id_char c = false end ->
  videoIDMatch (js "https://youtu.be/" ++ videoID ++ after) = Some videoID.
Proof.
  intros Hne Hid Hafter.
  change (js "https://youtu.be/") with (js "https://" ++ js "youtu.be/").
  rewrite <- app_assoc.
  let v := eval vm_compute in (js "https://") in change (js "https://") with v.
  cbn [app]. rewrite !videoIDMatch_skip by reflexivity.
  apply videoIDMatch_here. unfold match_here.
  replace (group_after (js "v=") (js "youtu.be/" ++ videoID ++ after))
    with (@None jsstring) by reflexivity.
  now rewrite group_after_app.
Qed.

(** X16.  From a usual watch link and from a usual short link the route
    takes the identifier that stands after [v=] or [youtu.be/], up to
    the end of the link or to its first [&] or [?], whatever comes
    after. *)
Theorem usual_links_identified (videoID after : jsstring) :
  videoID <> [] ->
  forallb id_char videoID = true ->
  match after with [] => True | c :: _ => id_char c = false end ->
  videoIDMatch (js "https://www.youtube.com/watch?v=" ++ videoID ++ after)
    = Some videoID /\
  videoIDMatch (js "https://youtu.be/" ++ videoID ++ after) = Some videoID.
Proof.
  intros Hne Hid Hafter. split.
  - now apply videoIDMatch_watch.
  - now apply videoIDMatch_short.
Qed.

Lemma usual_links_identified_witness :
  videoIDMatch (js "https://www.youtube.com/watch?v=" ++ Sample.id ++ js "&t=42s")
    = Some Sample.id /\
  videoIDMatch (js "https://youtu.be/" ++ Sample.id ++ js "&t=42s") = Some Sample.id.
Proof.
  apply (usual_links_identified Sample.id (js "&t=42s")).
  - discriminate.
  - reflexivity.
  - reflexivity.
Defined.

Lemma core_found s g :
  core s = Some g -> g <> [] /\ forallb link_char g = true.
Proof.
  unfold core. destruct (first_of _ s) as [after|]; [|discriminate].
  pose proof (forallb_takeWhile link_char after) as H.
  destruct (takeWhile link_char after) as [|c g']; [discriminate|].
  intros [= <-]. split; [discriminate | exact H].
Qed.

Lemma www_found s g :
  www s = Some g -> g <> [] /\ forallb link_char g = true.
Proof.
  unfold www. destruct (matches (lit "www.") s) as [after|].
  - destruct (core after) as [g'|] eqn:E.
    + intros [= <-]. now apply (core_found after).
    + apply core_found.
  - apply core_found.
Qed.

Lemma urlRegex_here_found s g :
  urlRegex_here s = Some g -> g <> [] /\ forallb link_char g = true.
Proof.
  unfold urlRegex_here, after_scheme.
  destruct (matches (lit "https://") s) as [a1|].
  - destruct (www a1) as [g1|] eqn:E1; [intros [= <-]; now apply (www_found a1)|].
    destruct (matches (lit "http://") s) as [a2|]; [|apply www_found].
    destruct (www a2) as [g2|] eqn:E2; [intros [= <-]; now apply (www_found a2)|].
    apply www_found.
  - destruct (matches (lit "http://") s) as [a2|]; [|apply www_found].
    destruct (www a2) as [g2|] eqn:E2; [intros [= <-]; now apply (www_found a2)|].
    apply www_found.
Qed.

Lemma urlRegex_found s g :
  urlRegex s = Some g -> g <> [] /\ forallb link_char g = true.
Proof.
  induction s as [|c s IH]; cbn [urlRegex].
  - destruct (urlRegex_here []) eqn:E; [|discriminate].
    intros [= <-]. now apply (urlRegex_here_found []).
  - destruct (urlRegex_here (c :: s)) eqn:E; [|exact IH].
    intros [= <-]. now apply (urlRegex_here_found (c :: s)).
Qed.

(** X17.  Whatever link the first page accepts, the request it posts is
    not refused as incomplete by the route: the identifier it carries
    is not empty, has no [&], no [?] and no white space, and, with a
    language chosen, the route goes on to look the video up under it. *)
Theorem first_page_request_served
    getInfo generateContent youtubeLink selectedLanguage req :
  fetchSubtitles youtubeLink selectedLanguage = Some req ->
  selectedLanguage <> [] ->
  exists extractedVideoId rest,
    Subtitles.videoId req = Some extractedVideoId /\
    extractedVideoId <> [] /\
    forallb link_char extractedVideoId = true /\
    snd (Subtitles.respond getInfo generateContent req) =
      GetInfo extractedVideoId :: rest.
Proof.
  unfold fetchSubtitles. intros H Hlang.
  destruct (urlRegex youtubeLink) as [g|] eqn:E; [|discriminate].
  injection H as <-. destruct (urlRegex_found _ _ E) as [Hne Hall].
  destruct (respond_subtitles_fetches getInfo generateContent
              {| Subtitles.videoId := Some g;
                 Subtitles.language := Some selectedLanguage |}) as [rest Hrest].
  - destruct g; [congruence | reflexivity].
  - destruct selectedLanguage; [congruence | reflexivity].
  - exists g, rest. repeat split; assumption.
Qed.

Lemma first_page_request_served_witness :
  exists extractedVideoId rest,
    Subtitles.videoId (Sample.subtitles_request (js "es")) = Some extractedVideoId /\
    extractedVideoId <> [] /\
    forallb link_char extractedVideoId = true /\
    snd (Subtitles.respond (Sample.getInfo (js "10"))
           (Sample.generateContent (js "hola"))
           (Sample.subtitles_request (js "es"))) =
      GetInfo extractedVideoId :: rest.
Proof.
  apply (first_page_request_served (Sample.getInfo (js "10"))
           (Sample.generateContent (js "hola"))
           (js "https://www.youtube.com/watch?v=dQw4w9WgXcQ&t=42s") (js "es")).
  - reflexivity.
  - discriminate.
Defined.

Lemma matches_reject (p : pattern) (t : jsstring) :
  (exists j f, nth_error p j = Some f /\
               forall c, id_safe c = true -> f c = false) ->
  forallb id_safe t = true ->
  matches p t = None.
Proof.
  intros (j & f & Hj & Hf). revert j t Hj.
  induction p as [|f0 p IH]; intros j t Hj Ht.
  - destruct j; discriminate.
  - destruct t as [|c t]; [reflexivity|].
    cbn [forallb] in Ht. apply andb_prop in Ht. destruct Ht as [Hc Ht].
    cbn [matches]. destruct j as [|j]; cbn in Hj.
    + injection Hj as ->. now rewrite (Hf c Hc).
    + destruct (f0 c); [now apply (IH j) | reflexivity].
Qed.

Lemma chr_reject (a : ascii) (c : N) :
  id_safe (N_of_ascii a) = false -> id_safe c = true -> chr a c = false.
Proof. intros Ha Hc. unfold chr. now apply id_safe_not. Qed.

(** No marker of the second page starts in a run of identifier
    characters: each has a [/], a [=] or an ampersand. *)
Lemma first_of_markers_safe (t : jsstring) :
  forallb id_safe t = true -> first_of markers t = None.
Proof.
  intros Ht. unfold markers. cbn [first_of].
  rewrite (matches_reject (lit "youtu" ++ [dot] ++ lit "be/") t); [|
    exists 8%nat, (chr "/"); split; [reflexivity |
      intros c Hc; now apply chr_reject] | exact Ht].
  rewrite (matches_reject (lit "v/") t); [|
    exists 1%nat, (chr "/"); split; [reflexivity |
      intros c Hc; now apply chr_reject] | exact Ht].
  rewrite (matches_reject (lit "u/" ++ [word_char] ++ lit "/") t); [|
    exists 1%nat, (chr "/"); split; [reflexivity |
      intros c Hc; now apply chr_reject] | exact Ht].
  rewrite (matches_reject (lit "embed/") t); [|
    exists 5%nat, (chr "/"); split; [reflexivity |
      intros c Hc; now apply chr_reject] | exact Ht].
  rewrite (matches_reject (lit "watch?v=") t); [|
    exists 7%nat, (chr "="); split; [reflexivity |
      intros c Hc; now apply chr_reject] | exact Ht].
  rewrite (matches_reject (lit "&v=") t); [|
    exists 0%nat, (chr "&"); split; [reflexivity |
      intros c Hc; now apply chr_reject] | exact Ht].
  reflexivity.
Qed.

Lemma last_marker_safe (t : jsstring) :
  forallb id_safe t = true -> last_marker t = None.
Proof.
  induction t as [|c t IH]; intros Ht; [reflexivity|].
  cbn [last_marker]. rewrite (first_of_markers_safe (c :: t) Ht).
  cbn [forallb] in Ht. apply andb_prop in Ht. destruct Ht as [_ Ht].
  rewrite (IH Ht). now destruct (dot c).
Qed.

Lemma last_marker_keep (c : N) (s after : jsstring) :
  dot c = true -> last_marker s = Some after -> last_marker (c :: s) = Some after.
Proof. intros Hc Hs. cbn [last_marker]. now rewrite Hc, Hs. Qed.

Lemma last_marker_here (c : N) (s after : jsstring) :
  dot c = true -> first_of markers (c :: s) = Some after ->
  last_marker s = None -> last_marker (c :: s) = Some after.
Proof. intros Hc Hm Hs. cbn [last_marker]. now rewrite Hc, Hs. Qed.

Lemma last_marker_pass (c : N) (s : jsstring) :
  dot c = true -> first_of markers (c :: s) = None ->
  last_marker s = None -> last_marker (c :: s) = None.
Proof. intros Hc Hm Hs. cbn [last_marker]. now rewrite Hc, Hs. Qed.

Ltac marker_absent H :=
  lazymatch goal with
  | |- last_marker (_ :: _) = None =>
      first [ exact H
            | apply last_marker_pass; [reflexivity | reflexivity | marker_absent H] ]
  | |- _ => exact H
  end.

Ltac marker_found H :=
  first [ apply last_marker_here; [reflexivity | reflexivity | marker_absent H]
        | apply last_marker_keep; [reflexivity | marker_found H] ].

Lemma getYouTubeID_of (url videoID : jsstring) :
  length videoID = 11%nat -> forallb id_safe videoID = true ->
  last_marker url = Some videoID -> getYouTubeID url = Some videoID.
Proof.
  intros Hlen Hsafe Hm. unfold getYouTubeID. rewrite Hm.
  pose proof (takeWhile_all id_class videoID []
                (forallb_impl id_safe id_class videoID id_safe_id_class Hsafe) I) as E.
  rewrite app_nil_r in E. cbn zeta. now rewrite E, Hlen.
Qed.

Lemma last_marker_watch (videoID : jsstring) :
  forallb id_safe videoID = true ->
  last_marker (js "https://www.youtube.com/watch?v=" ++ videoID) = Some videoID.
Proof.
  intros Hsafe. pose proof (last_marker_safe videoID Hsafe) as H.
  let v := eval vm_compute in (js "https://www.youtube.com/watch?v=") in
  change (js "https://www.youtube.com/watch?v=") with v.
  cbn [app]. marker_found H.
Qed.

Lemma last_marker_short (videoID : jsstring) :
  forallb id_safe videoID = true ->
  last_marker (js "https://youtu.be/" ++ videoID) = Some videoID.
Proof.
  intros Hsafe. pose proof (last_marker_safe videoID Hsafe) as H.
  let v := eval vm_compute in (js "https://youtu.be/") in
  change (js "https://youtu.be/") with v.
  cbn [app]. marker_found H.
Qed.

Lemma last_marker_embed (videoID : jsstring) :
  forallb id_safe videoID = true ->
  last_marker (js "https://www.youtube.com/embed/" ++ videoID) = Some videoID.
Proof.
  intros Hsafe. pose proof (last_marker_safe videoID Hsafe) as H.
  let v := eval vm_compute in (js "https://www.youtube.com/embed/") in
  change (js "https://www.youtube.com/embed/") with v.
  cbn [app]. marker_found H.
Qed.

(** X18.  On a usual watch link and on a usual short link with an
    identifier of 11 letters, digits, [_] or [-] and nothing after it,
    the second page and the route agree: the page finds the identifier
    and posts the link, and the route takes the same identifier from
    it. *)
Theorem usual_links_agree (videoID language link : jsstring) :
  length videoID = 11%nat ->
  forallb id_safe videoID = true ->
  link = js "https://www.youtube.com/watch?v=" ++ videoID \/
  link = js "https://youtu.be/" ++ videoID ->
  getYouTubeID link = Some videoID /\
  handleSubmit link language =
    Some {| youtubeUrl := Some link; Generate.language := Some language |} /\
  videoIDMatch link = Some videoID.
Proof.
  intros Hlen Hsafe Hlink.
  assert (videoID <> []) as Hne by (destruct videoID; [discriminate | discriminate]).
  pose proof (forallb_impl id_safe id_char videoID id_safe_id_char Hsafe) as Hchar.
  pose proof (videoIDMatch_watch videoID [] Hne Hchar I) as Hwatch.
  pose proof (videoIDMatch_short videoID [] Hne Hchar I) as Hshort.
  rewrite !app_nil_r in *.
  assert (getYouTubeID link = Some videoID) as Hpage.
  { apply getYouTubeID_of; try assumption.
    destruct Hlink as [-> | ->];
      [now apply last_marker_watch | now apply last_marker_short]. }
  split; [exact Hpage|]. split.
  - unfold handleSubmit. now rewrite Hpage.
  - destruct Hlink as [-> | ->]; assumption.
Qed.

Lemma usual_links_agree_witness :
  getYouTubeID (js "https://youtu.be/" ++ Sample.id) = Some Sample.id /\
  handleSubmit (js "https://youtu.be/" ++ Sample.id) (js "es") =
    Some {| youtubeUrl := Some (js "https://youtu.be/" ++ Sample.id);
            Generate.language := Some (js "es") |} /\
  videoIDMatch (js "https://youtu.be/" ++ Sample.id) = Some Sample.id.
Proof.
  apply (usual_links_agree Sample.id (js "es") (js "https://youtu.be/" ++ Sample.id)).
  - reflexivity.
  - reflexivity.
  - right. reflexivity.
Defined.

(** X19.  An embed link with an identifier of 11 letters, digits, [_]
    or [-] passes the second page, which posts it, and is refused by the
    route with status 400 for its format, before any external call: the
    route knows [v=] and [youtu.be/] only. *)
Theorem embed_link_refused
    getSubtitles displayNameOf generateContent (videoID language : jsstring) :
  length videoID = 11%nat ->
  forallb id_safe videoID = true ->
  language <> [] ->
  let link := js "https://www.youtube.com/embed/" ++ videoID in
  getYouTubeID link = Some videoID /\
  exists req,
    handleSubmit link language = Some req /\
    respond getSubtitles displayNameOf generateContent req =
    ({| status := 400; body := JsonMessage (js "Invalid YouTube URL format.") |}, []).
Proof.
  intros Hlen Hsafe Hlang link.
  assert (getYouTubeID link = Some videoID) as Hpage.
  { apply getYouTubeID_of; try assumption. now apply last_marker_embed. }
  split; [exact Hpage|].
  exists {| youtubeUrl := Some link; Generate.language := Some language |}.
  split; [unfold handleSubmit; now rewrite Hpage|].
  apply respond_invalid.
  - reflexivity.
  - destruct language; [congruence | reflexivity].
  - cbn [string_of youtubeUrl]. unfold link. apply videoIDMatch_absent.
    + change (js "v=") with ([118%N] ++ [61%N]).
      now rewrite (includes_app_safe [118%N] _ videoID 61%N eq_refl Hsafe).
    + change (js "youtu.be/") with (js "youtu.be" ++ [47%N]).
      now rewrite (includes_app_safe (js "youtu.be") _ videoID 47%N eq_refl Hsafe).
Qed.

Lemma embed_link_refused_witness :
  getYouTubeID (js "https://www.youtube.com/embed/" ++ Sample.id) = Some Sample.id /\
  exists req,
    handleSubmit (js "https://www.youtube.com/embed/" ++ Sample.id) (js "es")
      = Some req /\
    respond (Sample.getSubtitles (Some Sample.captions)) Sample.displayNameOf
      (Sample.generateContent Sample.fenced_payload) req =
    ({| status := 400; body := JsonMessage (js "Invalid YouTube URL format.") |}, []).
Proof.
  apply (embed_link_refused (Sample.getSubtitles (Some Sample.captions))
           Sample.displayNameOf (Sample.generateContent Sample.fenced_payload)
           Sample.id (js "es")).
  - reflexivity.
  - reflexivity.
  - discriminate.
Defined.

Lemma core_of (s g after : jsstring) :
  first_of [lit "youtube.com/watch?v="; lit "youtu.be/"] s = Some (g ++ after) ->
  g <> [] -> forallb link_char g = true ->
  match after with [] => True | c :: _ => link_char c = false end ->
  core s = Some g.
Proof.
  intros Hm Hne Hg Ha. unfold core.
  rewrite Hm, (takeWhile_all link_char g after Hg Ha).
  destruct g; [congruence | reflexivity].
Qed.

Lemma www_with (s rest g : jsstring) :
  matches (lit "www.") s = Some rest -> core rest = Some g -> www s = Some g.
Proof. intros Hm Hc. unfold www. now rewrite Hm, Hc. Qed.

Lemma www_without (s g : jsstring) :
  matches (lit "www.") s = None -> core s = Some g -> www s = Some g.
Proof. intros Hm Hc. unfold www. now rewrite Hm. Qed.

Lemma urlRegex_here_https (s rest g : jsstring) :
  matches (lit "https://") s = Some rest -> www rest = Some g ->
  urlRegex_here s = Some g.
Proof. intros Hm Hw. unfold urlRegex_here, after_scheme. now rewrite Hm, Hw. Qed.

Lemma urlRegex_here_http (s rest g : jsstring) :
  matches (lit "https://") s = None ->
  matches (lit "http://") s = Some rest -> www rest = Some g ->
  urlRegex_here s = Some g.
Proof.
  intros Hs Hm Hw. unfold urlRegex_here, after_scheme. now rewrite Hs, Hm, Hw.
Qed.

Lemma urlRegex_here_bare (s g : jsstring) :
  matches (lit "https://") s = None ->
  matches (lit "http://") s = None -> www s = Some g ->
  urlRegex_here s = Some g.
Proof.
  intros Hs Hm Hw. unfold urlRegex_here, after_scheme. now rewrite Hs, Hm.
Qed.

Lemma urlRegex_at (s g : jsstring) :
  urlRegex_here s = Some g -> urlRegex s = Some g.
Proof. intros H. destruct s; cbn [urlRegex]; now rewrite H. Qed.

Ltac link_core :=
  eapply core_of; [reflexivity | assumption | assumption | assumption].

Ltac link_www :=
  first [ eapply www_with; [reflexivity | link_core]
        | eapply www_without; [reflexivity | link_core] ].

Ltac link_here :=
  first [ eapply urlRegex_here_https; [reflexivity | link_www]
        | eapply urlRegex_here_http; [reflexivity | reflexivity | link_www]
        | eapply urlRegex_here_bare; [reflexivity | reflexivity | link_www] ].

(** X20.  From a usual watch link or short link, written with or
    without its scheme and its [www.], the first page posts the
    identifier that stands after the marker, up to the end of the link
    or to its first [&], [?] or white space. *)
Theorem first_page_usual_links
    (scheme host marker extractedVideoId after selectedLanguage : jsstring) :
  In scheme [[]; js "http://"; js "https://"] ->
  In host [[]; js "www."] ->
  In marker [js "youtube.com/watch?v="; js "youtu.be/"] ->
  extractedVideoId <> [] ->
  forallb link_char extractedVideoId = true ->
  match after with [] => True | c :: _ => link_char c = false end ->
  fetchSubtitles (scheme ++ host ++ marker ++ extractedVideoId ++ after)
    selectedLanguage =
  Some {| Subtitles.videoId := Some extractedVideoId;
          Subtitles.language := Some selectedLanguage |}.
Proof.
  intros Hs Hh Hm Hne Hid Hafter.
  assert (urlRegex (scheme ++ host ++ marker ++ extractedVideoId ++ after)
          = Some extractedVideoId) as E.
  { apply urlRegex_at.
    cbn [In] in Hs, Hh, Hm.
    destruct Hs as [<- | [<- | [<- | []]]];
      destruct Hh as [<- | [<- | []]];
      destruct Hm as [<- | [<- | []]];
      link_here. }
  unfold fetchSubtitles. now rewrite E.
Qed.

Lemma first_page_usual_links_witness :
  fetchSubtitles (js "https://" ++ js "www." ++ js "youtube.com/watch?v="
                  ++ Sample.id ++ js "&t=42s") (js "es") =
  Some {| Subtitles.videoId := Some Sample.id;
          Subtitles.language := Some (js "es") |}.
Proof.
  apply (first_page_usual_links (js "https://") (js "www.")
           (js "youtube.com/watch?v=") Sample.id (js "&t=42s") (js "es")).
  - right. right. left. reflexivity.
  - right. left. reflexivity.
  - left. reflexivity.
  - discriminate.
  - reflexivity.
  - reflexivity.
Defined.

End Links.

(** ** The clean-up of an answer in fences *)

Section FencedAnswer.

Import Generate.

Lemma includes_backtick_cons c s :
  includes Measure.backtick (c :: s) = (96 =? c)%N || includes Measure.backtick s.
Proof.
  rewrite includes_unfold. unfold Measure.backtick. cbn [js map list_ascii_of_string startsWith].
  change (N_of_ascii "`") with 96%N. now rewrite andb_true_r.
Qed.

(** A replacement whose pattern starts with a backtick passes over a
    text without backticks. *)
Lemma removeAll_app_clean (p a s : jsstring) :
  includes Measure.backtick a = false ->
  removeAll (96%N :: p) (a ++ s) = a ++ removeAll (96%N :: p) s.
Proof.
  induction a as [|c a IH]; intros H; [reflexivity|].
  rewrite includes_backtick_cons in H. apply orb_false_elim in H.
  destruct H as [Hc Ha]. cbn [app]. rewrite removeAll_cons.
  cbn [startsWith]. rewrite Hc. cbn [andb]. f_equal. now apply IH.
Qed.

Lemma dropWhile_app_all (f : N -> bool) (a s : jsstring) :
  forallb f a = true -> dropWhile f (a ++ s) = dropWhile f s.
Proof.
  induction a as [|c a IH]; [reflexivity|]. cbn. intros H.
  apply andb_prop in H. destruct H as [-> H]. now apply IH.
Qed.

Lemma forallb_rev (f : N -> bool) (s : jsstring) :
  forallb f (rev s) = forallb f s.
Proof.
  induction s as [|c s IH]; [reflexivity|].
  cbn [rev]. rewrite forallb_app, IH. cbn. rewrite andb_true_r. apply andb_comm.
Qed.

(** White space around a trimmed text is what [trim] removes. *)
Lemma trim_around (a d b : jsstring) :
  forallb is_space a = true -> forallb is_space b = true ->
  trim d = d -> trim (a ++ d ++ b) = d.
Proof.
  intros Ha Hb Hd.
  pose proof (trim_first d) as Hfirst. pose proof (trim_last d) as Hlast.
  rewrite Hd in Hfirst, Hlast.
  unfold trim, trimStart, trimEnd. rewrite (dropWhile_app_all is_space a _ Ha).
  destruct d as [|c d].
  - cbn [app]. rewrite <- (app_nil_r b), (dropWhile_app_all is_space b [] Hb).
    reflexivity.
  - cbn [app dropWhile]. rewrite Hfirst.
    change (c :: d ++ b) with ((c :: d) ++ b). rewrite rev_app_distr.
    rewrite (dropWhile_app_all is_space (rev b)) by now rewrite forallb_rev.
    rewrite (dropWhile_id is_space (rev (c :: d)) Hlast). apply rev_involutive.
Qed.

(** A document between an opening fence (with the tag [vtt] or without
    a tag) and a closing fence: what the two replacements and [trim]
    leave is the document. *)
Lemma cleaned_fenced (opening document : jsstring) :
  In opening [fence_vtt; fence ++ nl] ->
  includes Measure.backtick document = false ->
  trim document = document ->
  cleaned (opening ++ document ++ nl ++ fence) = document.
Proof.
  intros Hopen Hclean Htrim.
  unfold cleaned. cbn [In] in Hopen. destruct Hopen as [<- | [<- | []]].
  - replace (removeAll fence_vtt (fence_vtt ++ document ++ nl ++ fence))
      with (removeAll fence_vtt (document ++ nl ++ fence))
      by (symmetry; apply (removeAll_cons fence_vtt 96%N)).
    change fence_vtt with (96%N :: js "``vtt" ++ nl).
    rewrite (removeAll_app_clean _ document _ Hclean).
    replace (removeAll (96%N :: js "``vtt" ++ nl) (nl ++ fence))
      with (nl ++ fence) by reflexivity.
    change fence with (96%N :: js "``") at 1.
    rewrite (removeAll_app_clean _ document _ Hclean).
    replace (removeAll (96%N :: js "``") (nl ++ fence)) with nl by reflexivity.
    apply (trim_around [] document nl); auto.
  - rewrite <- app_assoc.
    replace (removeAll fence_vtt (fence ++ nl ++ document ++ nl ++ fence))
      with (fence ++ nl ++ removeAll fence_vtt (document ++ nl ++ fence)).
    2:{ symmetry. change (fence ++ nl ++ ?x) with (96 :: 96 :: 96 :: 10 :: x)%N.
        rewrite !removeAll_cons. reflexivity. }
    change fence_vtt with (96%N :: js "``vtt" ++ nl).
    rewrite (removeAll_app_clean _ document _ Hclean).
    replace (removeAll (96%N :: js "``vtt" ++ nl) (nl ++ fence))
      with (nl ++ fence) by reflexivity.
    rewrite removeAll_fence_app.
    change fence with (96%N :: js "``") at 1.
    change (nl ++ document ++ nl ++ fence)
      with (nl ++ (document ++ nl ++ fence)).
    rewrite (removeAll_app_clean _ nl _ eq_refl).
    rewrite (removeAll_app_clean _ document _ Hclean).
    replace (removeAll (96%N :: js "``") (nl ++ fence)) with nl by reflexivity.
    apply (trim_around nl document nl); auto.
Qed.

(** X21.  The usual answer of the model, a document between an opening
    fence (with the tag [vtt] or without a tag) and a closing fence, is
    unwrapped exactly: when the document has no backtick, nothing to
    trim and the header, the response body is the document. *)
Theorem fenced_answer_unwrapped (opening document : jsstring) :
  In opening [fence_vtt; fence ++ nl] ->
  includes Measure.backtick document = false ->
  trim document = document ->
  startsWith WEBVTT document = true ->
  vttContent (opening ++ document ++ nl ++ fence) = document.
Proof.
  intros Hopen Hclean Htrim Hheader.
  unfold vttContent.
  now rewrite (cleaned_fenced opening document Hopen Hclean Htrim), Hheader.
Qed.

Lemma fenced_answer_unwrapped_witness :
  vttContent (fence_vtt ++ Sample.inverted_document ++ nl ++ fence)
    = Sample.inverted_document.
Proof.
  apply (fenced_answer_unwrapped fence_vtt Sample.inverted_document).
  - left. reflexivity.
  - reflexivity.
  - reflexivity.
  - reflexivity.
Defined.

Lemma is_lower_range c : Measure.is_lower c = true -> (97 <= c <= 122)%N.
Proof.
  unfold Measure.is_lower. intros H. apply andb_prop in H.
  destruct H as [H1 H2]. apply N.leb_le in H1, H2. lia.
Qed.

Lemma is_lower_not c k :
  Measure.is_lower c = true -> (k < 97 \/ 122 < k)%N -> (k =? c)%N = false.
Proof.
  intros H Hk. apply is_lower_range in H. apply N.eqb_neq. lia.
Qed.

Lemma is_lower_not_space c : Measure.is_lower c = true -> is_space c = false.
Proof.
  intros H. unfold is_space. cbn [existsb].
  rewrite !(N.eqb_sym c).
  rewrite !(is_lower_not c) by (assumption || lia).
  apply is_lower_range in H. cbn [orb].
  apply andb_false_intro1. apply N.leb_gt. lia.
Qed.

Lemma is_lower_clean tag :
  forallb Measure.is_lower tag = true -> includes Measure.backtick tag = false.
Proof.
  induction tag as [|c tag IH]; [reflexivity|]. cbn [forallb]. intros H.
  apply andb_prop in H. destruct H as [Hc H].
  rewrite includes_backtick_cons, (is_lower_not c 96 Hc) by lia. now apply IH.
Qed.

(** Only the tag [vtt], followed at once by a line feed, makes the
    opening fence that the first replacement removes. *)
Lemma tag_not_vtt tag rest :
  forallb Measure.is_lower tag = true -> tag <> js "vtt" ->
  startsWith (js "vtt" ++ nl) (tag ++ nl ++ rest) = false.
Proof.
  intros Hlow Hne.
  destruct (startsWith (js "vtt" ++ nl) (tag ++ nl ++ rest)) eqn:E; [|reflexivity].
  exfalso. apply startsWith_spec in E. destruct E as [b E].
  destruct tag as [|x [|y [|z [|w tag]]]]; cbn in E; try discriminate.
  - inversion E; subst. now apply Hne.
  - inversion E; subst. cbn in Hlow. discriminate.
Qed.

(** X22.  With any other tag on the opening fence (lower-case letters
    other than [vtt]), the backticks go but the tag stays: it becomes
    the first line of the body, the header is put before it, and the
    document of the model follows with its own header, if it has one,
    in third place. *)
Theorem other_tag_stays (tag document : jsstring) :
  tag <> [] ->
  forallb Measure.is_lower tag = true ->
  tag <> js "vtt" ->
  document <> [] ->
  includes Measure.backtick document = false ->
  trim document = document ->
  vttContent (fence ++ tag ++ nl ++ document ++ nl ++ fence) =
  WEBVTT ++ nl ++ nl ++ tag ++ nl ++ document.
Proof.
  intros Htag Hlow Hvtt Hdoc Hclean Htrim.
  pose proof (is_lower_clean tag Hlow) as Htagclean.
  destruct tag as [|a tag]; [congruence|].
  assert (Measure.is_lower a = true) as Ha.
  { cbn [forallb] in Hlow. now apply andb_prop in Hlow. }
  assert (cleaned (fence ++ (a :: tag) ++ nl ++ document ++ nl ++ fence)
          = (a :: tag) ++ nl ++ document) as E.
  { unfold cleaned.
    replace (removeAll fence_vtt (fence ++ (a :: tag) ++ nl ++ document ++ nl ++ fence))
      with (fence ++ (a :: tag) ++ nl ++ document ++ nl ++ fence).
    2:{ symmetry.
        change (fence ++ ?x) with (96 :: 96 :: 96 :: x)%N.
        rewrite removeAll_cons.
        replace (startsWith fence_vtt
                   (96 :: 96 :: 96 :: (a :: tag) ++ nl ++ document ++ nl ++ fence)%N)
          with (startsWith (js "vtt" ++ nl)
                  ((a :: tag) ++ nl ++ document ++ nl ++ fence)) by reflexivity.
        rewrite (tag_not_vtt (a :: tag) _ Hlow Hvtt). f_equal.
        rewrite removeAll_cons.
        replace (startsWith fence_vtt
                   (96 :: 96 :: (a :: tag) ++ nl ++ document ++ nl ++ fence)%N)
          with ((96 =? a)%N && startsWith (js "vtt" ++ nl)
                                 (tag ++ nl ++ document ++ nl ++ fence))
          by reflexivity.
        rewrite (is_lower_not a 96 Ha) by lia. cbn [andb]. f_equal.
        rewrite removeAll_cons.
        replace (startsWith fence_vtt
                   (96 :: (a :: tag) ++ nl ++ document ++ nl ++ fence)%N)
          with ((96 =? a)%N && startsWith (js "`vtt" ++ nl)
                                 (tag ++ nl ++ document ++ nl ++ fence))
          by reflexivity.
        rewrite (is_lower_not a 96 Ha) by lia. cbn [andb]. f_equal.
        change fence_vtt with (96%N :: js "``vtt" ++ nl).
        rewrite (removeAll_app_clean _ (a :: tag) _ Htagclean).
        rewrite (removeAll_app_clean _ nl _ eq_refl).
        rewrite (removeAll_app_clean _ document _ Hclean).
        reflexivity. }
    rewrite removeAll_fence_app.
    change fence with (96%N :: js "``") at 1.
    rewrite (removeAll_app_clean _ (a :: tag) _ Htagclean).
    rewrite (removeAll_app_clean _ nl _ eq_refl).
    rewrite (removeAll_app_clean _ document _ Hclean).
    replace (removeAll (96%N :: js "``") (nl ++ fence)) with nl by reflexivity.
    assert (trim ((a :: tag) ++ nl ++ document) = (a :: tag) ++ nl ++ document)
      as Hbody.
    { apply trim_id.
      - cbn [app]. now apply is_lower_not_space.
      - pose proof (trim_last document) as Hlast. rewrite Htrim in Hlast.
        rewrite !rev_app_distr.
        destruct (rev document) as [|d u] eqn:Er; [|exact Hlast].
        apply (f_equal (@rev N)) in Er. rewrite rev_involutive in Er.
        cbn in Er. congruence. }
    replace ((a :: tag) ++ nl ++ document ++ nl)
      with ([] ++ ((a :: tag) ++ nl ++ document) ++ nl)
      by (cbn [app]; now rewrite <- !app_assoc).
    apply trim_around; auto. }
  unfold vttContent. rewrite E.
  replace (startsWith WEBVTT ((a :: tag) ++ nl ++ document))
    with ((87 =? a)%N && startsWith (js "EBVTT") (tag ++ nl ++ document))
    by reflexivity.
  rewrite (is_lower_not a 87 Ha) by lia. reflexivity.
Qed.

Lemma other_tag_stays_witness :
  vttContent (fence ++ js "webvtt" ++ nl ++ Sample.inverted_document ++ nl ++ fence) =
  WEBVTT ++ nl ++ nl ++ js "webvtt" ++ nl ++ Sample.inverted_document.
Proof.
  apply (other_tag_stays (js "webvtt") Sample.inverted_document).
  - discriminate.
  - reflexivity.
  - discriminate.
  - discriminate.
  - reflexivity.
  - reflexivity.
Defined.

End FencedAnswer.

(** ** The clean-up, in full *)

Section CleanUp.

Import Generate.

Lemma dropWhile_prefix (f : N -> bool) (s : jsstring) :
  exists a, s = a ++ dropWhile f s /\ forallb f a = true.
Proof.
  induction s as [|c s (a & Ha & Hall)]; cbn [dropWhile].
  - now exists [].
  - destruct (f c) eqn:E.
    + exists (c :: a). cbn. rewrite E, Hall. split; [now f_equal | reflexivity].
    + now exists [].
Qed.

(** [trim] takes white space only, from the two ends. *)
Lemma trim_decompose (s : jsstring) :
  exists a b,
    s = a ++ trim s ++ b /\
    forallb is_space a = true /\ forallb is_space b = true.
Proof.
  unfold trim, trimEnd, trimStart.
  destruct (dropWhile_prefix is_space s) as (a & Ha & Halla).
  destruct (dropWhile_prefix is_space (rev (dropWhile is_space s)))
    as (b & Hb & Hallb).
  exists a, (rev b). repeat split.
  - rewrite <- rev_app_distr, <- Hb, rev_involutive. exact Ha.
  - exact Halla.
  - now rewrite forallb_rev.
Qed.

(** A fence between two texts without backticks: the two replacements
    take the fence and nothing else, unless the text after it makes it
    an opening fence with the tag [vtt]. *)
Lemma stripped_fence_inside (a b : jsstring) :
  includes Measure.backtick a = false ->
  includes Measure.backtick b = false ->
  startsWith (js "vtt" ++ nl) b = false ->
  removeAll fence (removeAll fence_vtt (a ++ fence ++ b)) = a ++ b.
Proof.
  intros Ha Hb Hvtt.
  assert (forall p, removeAll (96%N :: p) b = b) as Hbclean.
  { intros p. rewrite <- (app_nil_r b) at 1.
    rewrite (removeAll_app_clean p b [] Hb). apply app_nil_r. }
  assert (removeAll fence_vtt (a ++ fence ++ b) = a ++ fence ++ b) as E.
  { change fence_vtt with (96%N :: js "``vtt" ++ nl) at 1.
    rewrite (removeAll_app_clean _ a _ Ha). f_equal.
    change (96%N :: js "``vtt" ++ nl) with fence_vtt.
    change (fence ++ b) with (96 :: 96 :: 96 :: b)%N.
    rewrite removeAll_cons.
    replace (startsWith fence_vtt (96 :: 96 :: 96 :: b)%N)
      with (startsWith (js "vtt" ++ nl) b) by reflexivity.
    rewrite Hvtt. f_equal.
    assert (startsWith [96%N] b = false) as Hhead.
    { destruct b as [|c b]; [reflexivity|].
      rewrite includes_backtick_cons in Hb. apply orb_false_elim in Hb.
      cbn [startsWith]. now rewrite (proj1 Hb). }
    rewrite removeAll_cons.
    replace (startsWith fence_vtt (96 :: 96 :: b)%N) with false.
    2:{ destruct b as [|c b]; [reflexivity|]. cbn [startsWith] in Hhead.
        rewrite andb_true_r in Hhead.
        change (startsWith fence_vtt (96 :: 96 :: c :: b)%N)
          with ((96 =? c)%N && startsWith (js "vtt" ++ nl) b).
        now rewrite Hhead. }
    f_equal. rewrite removeAll_cons.
    replace (startsWith fence_vtt (96 :: b)%N) with false.
    2:{ destruct b as [|c b]; [reflexivity|]. cbn [startsWith] in Hhead.
        rewrite andb_true_r in Hhead.
        change (startsWith fence_vtt (96 :: c :: b)%N)
          with ((96 =? c)%N && startsWith (js "`vtt" ++ nl) b).
        now rewrite Hhead. }
    f_equal. change fence_vtt with (96%N :: js "``vtt" ++ nl). apply Hbclean. }
  rewrite E, removeAll_fence_insert.
  change fence with (96%N :: js "``").
  rewrite (removeAll_app_clean _ a _ Ha). f_equal. apply Hbclean.
Qed.

(** Of a run of [n] backticks the removal leaves the last [n mod 3]. *)
Lemma removeAll_run (n : nat) (s : jsstring) :
  backticks s = 0%nat ->
  removeAll fence (repeat 96%N n ++ s) = repeat 96%N (n mod 3) ++ removeAll fence s.
Proof.
  intros Hs. induction n as [n IH] using lt_wf_ind.
  destruct n as [|[|[|n]]].
  - reflexivity.
  - cbn [repeat app Nat.modulo]. change (1 mod 3)%nat with 1%nat.
    cbn [repeat app]. apply removeAll_fence_keep.
    rewrite backticks_tick, Hs. lia.
  - change (2 mod 3)%nat with 2%nat. cbn [repeat app].
    rewrite removeAll_fence_keep by (rewrite !backticks_tick, Hs; lia).
    f_equal. apply removeAll_fence_keep. rewrite backticks_tick, Hs. lia.
  - change (repeat 96%N (S (S (S n))) ++ s) with (fence ++ repeat 96%N n ++ s).
    rewrite removeAll_fence_app, (IH n) by lia.
    replace (S (S (S n))) with (n + 1 * 3)%nat by lia.
    now rewrite Nat.Div0.mod_add.
Qed.

(** C7.  For every payload of the model, the clean-up removes the
    fences, trims, and restores the header when the result does not
    start with it (the header, a blank line, then the result).  What it
    sends always starts with WEBVTT and has no fence left.  Trimming
    takes white space only, from both ends, and leaves none there; a
    payload without fences loses nothing else.  A document in fences and
    without the header is sent with the header before it and without
    the fences.  A run that obtained the payload answers 200 with the
    outcome: no payload is rejected. *)
Theorem vttContent_header_restored (text : jsstring) :
  startsWith WEBVTT (vttContent text) = true /\
  includes fence (vttContent text) = false /\
  trim (cleaned text) = cleaned text /\
  (startsWith WEBVTT (cleaned text) = false ->
   vttContent text = WEBVTT ++ nl ++ nl ++ cleaned text) /\
  (startsWith WEBVTT (cleaned text) = true ->
   vttContent text = cleaned text) /\
  (forall getSubtitles displayNameOf generateContent req videoID captions
          languageName,
     accepted req videoID ->
     getSubtitles videoID (js "en") = Returns (Some captions) ->
     captions <> [] ->
     displayNameOf (string_of (language req)) = Returns languageName ->
     generateContent (prompt languageName (transcript captions)) = Returns text ->
     fst (respond getSubtitles displayNameOf generateContent req) =
     {| status := 200; body := TextVtt (vttContent text) |}) /\
  (exists before after,
     removeAll fence (removeAll fence_vtt text) = before ++ cleaned text ++ after /\
     forallb is_space before = true /\ forallb is_space after = true) /\
  match cleaned text with [] => True | c :: _ => is_space c = false end /\
  match rev (cleaned text) with [] => True | c :: _ => is_space c = false end /\
  (includes fence text = false ->
   exists before after,
     text = before ++ cleaned text ++ after /\
     forallb is_space before = true /\ forallb is_space after = true) /\
  (forall opening document,
     text = opening ++ document ++ nl ++ fence ->
     In opening [fence_vtt; fence ++ nl] ->
     includes Measure.backtick document = false ->
     trim document = document ->
     startsWith WEBVTT document = false ->
     vttContent text = WEBVTT ++ nl ++ nl ++ document).
Proof.
  split; [apply startsWith_vttContent|].
  split; [apply includes_fence_vttContent|].
  split; [apply trim_idempotent|].
  split; [intros H; unfold vttContent; now rewrite H|].
  split; [intros H; unfold vttContent; now rewrite H|].
  split.
  { intros until languageName. intros Ha Hc Hne Hn Hg.
    now rewrite (respond_document _ _ _ _ _ _ _ _ Ha Hc Hne Hn Hg). }
  split; [apply trim_decompose|].
  split; [apply trim_first|].
  split; [apply trim_last|].
  split.
  { intros Hf. unfold cleaned.
    rewrite (removeAll_absent fence_vtt text) by now apply includes_fence_vtt.
    rewrite (removeAll_absent fence text Hf). apply trim_decompose. }
  intros opening document -> Hopen Hclean Htrim Hheader.
  unfold vttContent.
  now rewrite (cleaned_fenced opening document Hopen Hclean Htrim), Hheader.
Qed.

Lemma vttContent_header_restored_witness :
  vttContent Sample.fenced_payload =
    js "WEBVTT" ++ nl ++ nl ++
    js "00:00:00.000 --> 00:00:02.000" ++ nl ++ js "hola" /\
  vttContent ((fence ++ nl) ++ (js "00:00:00.000 --> 00:00:02.000" ++ nl ++ js "hola")
              ++ nl ++ fence) =
    js "WEBVTT" ++ nl ++ nl ++
    js "00:00:00.000 --> 00:00:02.000" ++ nl ++ js "hola" /\
  fst (respond (Sample.getSubtitles (Some Sample.captions)) Sample.displayNameOf
         (Sample.generateContent Sample.fenced_payload)
         (Sample.generate_request (js "es"))) =
  {| status := 200; body := TextVtt (vttContent Sample.fenced_payload) |}.
Proof.
  destruct (vttContent_header_restored Sample.fenced_payload)
    as (_ & _ & _ & _ & _ & Hrun & _ & _ & _ & _ & Hfenced).
  destruct (vttContent_header_restored
              ((fence ++ nl)
               ++ (js "00:00:00.000 --> 00:00:02.000" ++ nl ++ js "hola")
               ++ nl ++ fence))
    as (_ & _ & _ & _ & _ & _ & _ & _ & _ & _ & Hplain).
  split; [|split].
  - apply (Hfenced fence_vtt
             (js "00:00:00.000 --> 00:00:02.000" ++ nl ++ js "hola")).
    + reflexivity.
    + left. reflexivity.
    + reflexivity.
    + reflexivity.
    + reflexivity.
  - apply (Hplain (fence ++ nl)
             (js "00:00:00.000 --> 00:00:02.000" ++ nl ++ js "hola")).
    + reflexivity.
    + right. left. reflexivity.
    + reflexivity.
    + reflexivity.
    + reflexivity.
  - apply (Hrun _ _ _ _ Sample.id Sample.captions (js "es")).
    + repeat split.
    + reflexivity.
    + discriminate.
    + reflexivity.
    + reflexivity.
Defined.

(** C10.  The clean-up deletes the three-backtick sequence wherever it
    stands in the payload, inside the text of a cue as around the
    payload.  No output contains it.  A text without it is left as it
    is; of a run of [n] backticks the last [n mod 3] are left; one more
    fence put anywhere changes nothing in what the removal leaves.  A
    fence between two texts without backticks goes and the two texts
    stay, joined: with the header and nothing to trim, the body sent is
    the two texts one after the other. *)
Theorem fences_deleted_everywhere :
  (forall text, includes fence (vttContent text) = false) /\
  (forall a b, removeAll fence (a ++ fence ++ b) = removeAll fence (a ++ b)) /\
  (forall a b,
     includes fence_vtt (a ++ fence ++ b) = false ->
     includes fence_vtt (a ++ b) = false ->
     vttContent (a ++ fence ++ b) = vttContent (a ++ b)) /\
  (forall s, includes fence s = false -> removeAll fence s = s) /\
  (forall n s,
     backticks s = 0%nat ->
     removeAll fence (repeat 96%N n ++ s) =
     repeat 96%N (n mod 3) ++ removeAll fence s) /\
  (forall a b,
     includes Measure.backtick a = false ->
     includes Measure.backtick b = false ->
     startsWith (js "vtt" ++ nl) b = false ->
     cleaned (a ++ fence ++ b) = trim (a ++ b) /\
     (trim (a ++ b) = a ++ b ->
      startsWith WEBVTT (a ++ b) = true ->
      vttContent (a ++ fence ++ b) = a ++ b)).
Proof.
  split; [apply includes_fence_vttContent|].
  split; [apply removeAll_fence_insert|].
  split.
  { intros a b H1 H2. unfold vttContent.
    now rewrite (cleaned_fence_insert _ _ H1 H2). }
  split; [apply removeAll_absent|].
  split; [apply removeAll_run|].
  intros a b Ha Hb Hvtt.
  assert (cleaned (a ++ fence ++ b) = trim (a ++ b)) as E.
  { unfold cleaned. now rewrite (stripped_fence_inside a b Ha Hb Hvtt). }
  split; [exact E|].
  intros Htrim Hheader. unfold vttContent. now rewrite E, Htrim, Hheader.
Qed.

Lemma fences_deleted_everywhere_witness :
  vttContent ((js "WEBVTT" ++ nl ++ nl ++ js "00:00:00.000 --> 00:00:02.000" ++ nl
               ++ js "run ") ++ fence ++ js "make first") =
  (js "WEBVTT" ++ nl ++ nl ++ js "00:00:00.000 --> 00:00:02.000" ++ nl
   ++ js "run ") ++ js "make first".
Proof.
  destruct fences_deleted_everywhere as (_ & _ & _ & _ & _ & H).
  apply H; reflexivity.
Defined.

End CleanUp.

(** ** Twenty-five words *)

Section TwentyFiveWords.

Import Subtitles.

Open Scope Z_scope.

Lemma split_go_word in_ws cur w s :
  w <> [] ->
  forallb (fun c => negb (is_space c)) w = true ->
  split_go in_ws cur (w ++ s) = split_go false (cur ++ w) s.
Proof.
  intros Hne Hw. destruct w as [|c w]; [congruence|]. clear Hne.
  cbn [forallb] in Hw. apply andb_prop in Hw. destruct Hw as [Hc Hw].
  apply negb_true_iff in Hc. cbn [app split_go]. rewrite Hc.
  clear Hc. revert cur c. induction w as [|d w IH]; intros cur c.
  - cbn [app]. reflexivity.
  - cbn [forallb] in Hw. apply andb_prop in Hw. destruct Hw as [Hd Hw].
    apply negb_true_iff in Hd. cbn [app split_go]. rewrite Hd.
    rewrite (IH Hw (cur ++ [c]) d). now rewrite <- !app_assoc.
Qed.

Lemma split_go_spaces g s :
  forallb is_space g = true -> split_go true [] (g ++ s) = split_go true [] s.
Proof.
  induction g as [|c g IH]; [reflexivity|]. cbn [forallb]. intros H.
  apply andb_prop in H. destruct H as [Hc H].
  cbn [app split_go]. rewrite Hc. now apply IH.
Qed.

Lemma split_go_gap cur g s :
  g <> [] -> forallb is_space g = true ->
  split_go false cur (g ++ s) = cur :: split_go true [] s.
Proof.
  intros Hne Hg. destruct g as [|c g]; [congruence|].
  cbn [forallb] in Hg. apply andb_prop in Hg. destruct Hg as [Hc Hg].
  cbn [app split_go]. rewrite Hc. f_equal. now apply split_go_spaces.
Qed.

(** The pieces of a text of words: the words, and one empty piece more
    when white space follows the last word. *)
Lemma split_go_sentence cur rest trailing :
  Forall (fun p => Text.gap (fst p) /\ Text.solid (snd p)) rest ->
  forallb is_space trailing = true ->
  split_go false cur (concat (map (fun p => fst p ++ snd p) rest) ++ trailing) =
  (cur :: map snd rest) ++ match trailing with [] => [] | _ => [[]] end.
Proof.
  intros Hrest Htrail. revert cur.
  induction Hrest as [|[g w] rest [[Hg1 Hg2] [Hw1 Hw2]] _ IH]; intros cur.
  - cbn [map concat app]. destruct trailing as [|c t]; [reflexivity|].
    rewrite <- (app_nil_r (c :: t)).
    rewrite (split_go_gap cur (c :: t) []) by (discriminate || assumption).
    reflexivity.
  - cbn [map concat fst snd]. rewrite <- !app_assoc.
    rewrite (split_go_gap cur g _ Hg1 Hg2).
    rewrite (split_go_word true [] w _ Hw1 Hw2). cbn [app].
    now rewrite IH.
Qed.

Lemma words_sentence first rest trailing :
  Text.solid first ->
  Forall (fun p => Text.gap (fst p) /\ Text.solid (snd p)) rest ->
  forallb is_space trailing = true ->
  words (Text.sentence first rest ++ trailing) =
  (first :: map snd rest) ++ match trailing with [] => [] | _ => [[]] end.
Proof.
  intros [Hf1 Hf2] Hrest Htrail. unfold words, split_ws, Text.sentence.
  rewrite <- app_assoc, (split_go_word false [] first _ Hf1 Hf2). cbn [app].
  now apply split_go_sentence.
Qed.

Lemma solid_word w : Text.solid w -> word w.
Proof.
  intros [Hne Hw]. destruct w as [|c w]; [congruence|].
  cbn [forallb] in Hw. apply andb_prop in Hw. destruct Hw as [Hc _].
  now apply negb_true_iff in Hc.
Qed.

(** Twenty-five words, with or without an empty piece after them, make
    five cues. *)
Lemma loop_25 ws extra :
  length ws = 25%nat -> Forall word ws -> extra = [] \/ extra = [[]] ->
  loop (ws ++ extra) 0 0 [] =
  [ cue_of (slice ws 0 5) 0; cue_of (slice ws 5 10) 2;
    cue_of (slice ws 10 15) 4; cue_of (slice ws 15 20) 6;
    cue_of (slice ws 20 25) 8 ].
Proof.
  intros Hlen Hwords Hextra.
  do 25 (destruct ws as [|? ws]; [discriminate Hlen|]).
  destruct ws; [|discriminate Hlen].
  repeat match goal with
         | H : Forall word (_ :: _) |- _ => inversion_clear H
         end.
  destruct Hextra as [-> | ->]; cbn [app].
  - do 5 (rewrite loop_push; [| cbn; lia | apply group_kept; assumption]).
    rewrite loop_done by (cbn; lia). reflexivity.
  - do 5 (rewrite loop_push; [| cbn; lia | apply group_kept; assumption]).
    rewrite loop_skip by (cbn; lia || reflexivity).
    rewrite loop_done by (cbn; lia). reflexivity.
Qed.

(** C5, as the specification states it, fails.  A translated text of
    exactly 25 words with a line feed before the first one: the split
    has an empty first piece, the groups shift by one, and the response
    has six cues, the first of four words and the last from 10 to 12
    seconds. *)
Lemma leading_space_six_cues :
  length (words Sample.spanish_words) = 25%nat /\
  words (nl ++ Sample.spanish_words) = [] :: words Sample.spanish_words /\
  parseInt (js "10") = Int false 10 /\
  fst (respond (Sample.getInfo (js "10"))
         (Sample.generateContent (nl ++ Sample.spanish_words))
         (Sample.subtitles_request (js "es"))) =
  {| status := 200;
     body := JsonSubtitles
               [ {| text := js " uno dos tres cuatro"; start := 0; end_ := 2 |};
                 {| text := js "cinco seis siete ocho nueve"; start := 2; end_ := 4 |};
                 {| text := js "diez once doce trece catorce"; start := 4; end_ := 6 |};
                 {| text := js "quince diecis veinte v1 v2"; start := 6; end_ := 8 |};
                 {| text := js "v3 v4 v5 v6 v7"; start := 8; end_ := 10 |};
                 {| text := js "v8"; start := 10; end_ := 12 |} ] |}.
Proof.
  split; [vm_compute; reflexivity|].
  split; [vm_compute; reflexivity|].
  split; vm_compute; reflexivity.
Qed.

(** C5, amended.  A video of 10 seconds and a translated text of
    exactly 25 words that does not start with white space (the words
    are separated by white space of any kind and length, and white
    space may follow the last one): the response has exactly 5 cues,
    0-2, 2-4, 4-6, 6-8 and 8-10, and the text of each is its 5 words,
    in their order, with single spaces. *)
Theorem twenty_five_words_five_cues
    getInfo generateContent req videoInfo first rest trailing :
  falsy (videoId req) = false ->
  falsy (language req) = false ->
  getInfo (string_of (videoId req)) = Returns videoInfo ->
  parseInt (lengthSeconds videoInfo) = Int false 10 ->
  Text.of_25_words first rest trailing ->
  generateContent (prompt (string_of (language req)) (title videoInfo))
    = Returns (Text.sentence first rest ++ trailing) ->
  let ws := first :: map snd rest in
  fst (respond getInfo generateContent req) =
  {| status := 200;
     body := JsonSubtitles
               [ cue_of (slice ws 0 5) 0; cue_of (slice ws 5 10) 2;
                 cue_of (slice ws 10 15) 4; cue_of (slice ws 15 20) 6;
                 cue_of (slice ws 20 25) 8 ] |} /\
  length ws = 25%nat /\
  slice ws 0 5 ++ slice ws 5 10 ++ slice ws 10 15 ++ slice ws 15 20
    ++ slice ws 20 25 = ws.
Proof.
  intros Hv Hl Hi Hd (Hlen & Hfirst & Hrest & Htrail) Hg ws.
  assert (length ws = 25%nat) as Hws.
  { unfold ws. cbn [length]. now rewrite length_map, Hlen. }
  assert (Forall word ws) as Hwords.
  { unfold ws. constructor; [now apply solid_word|].
    rewrite Forall_map. revert Hrest. apply Forall_impl.
    intros p [_ Hp]. now apply solid_word. }
  rewrite (respond_subtitles getInfo generateContent req _ _ Hv Hl Hi Hg).
  cbn [fst]. unfold subtitlesWithTimestamps.
  rewrite (words_sentence first rest trailing Hfirst Hrest Htrail).
  fold ws. rewrite (loop_25 ws _ Hws Hwords)
    by (destruct trailing; [now left | now right]).
  split; [reflexivity|]. split; [exact Hws|].
  clear -Hws. do 25 (destruct ws as [|? ws]; [discriminate Hws|]).
  destruct ws; [reflexivity | discriminate Hws].
Qed.

Lemma twenty_five_words_five_cues_witness :
  fst (respond (Sample.getInfo (js "10"))
         (Sample.generateContent
            (Text.sentence Text.sample_first Text.sample_rest ++ nl))
         (Sample.subtitles_request (js "es"))) =
  {| status := 200;
     body := JsonSubtitles
               [ {| text := js "uno dos tres cuatro cinco"; start := 0; end_ := 2 |};
                 {| text := js "seis siete ocho nueve diez"; start := 2; end_ := 4 |};
                 {| text := js "once doce trece catorce quince"; start := 4; end_ := 6 |};
                 {| text := js "diecis veinte v1 v2 v3"; start := 6; end_ := 8 |};
                 {| text := js "v4 v5 v6 v7 v8"; start := 8; end_ := 10 |} ] |}.
Proof.
  destruct (twenty_five_words_five_cues
              (Sample.getInfo (js "10"))
              (Sample.generateContent
                 (Text.sentence Text.sample_first Text.sample_rest ++ nl))
              (Sample.subtitles_request (js "es"))
              {| title := js "A video"; lengthSeconds := js "10" |}
              Text.sample_first Text.sample_rest nl) as (H & _ & _).
  - reflexivity.
  - reflexivity.
  - reflexivity.
  - reflexivity.
  - split; [reflexivity|]. split; [split; [discriminate | reflexivity]|].
    split; [|reflexivity].
    repeat constructor; cbn [fst snd]; (discriminate || reflexivity).
  - unfold Sample.generateContent. reflexivity.
  - rewrite H. vm_compute. reflexivity.
Defined.

End TwentyFiveWords.

(** ** /api/generate on any body *)

Section AnyBody.

Import Generate Body.

Variable getSubtitles : jsstring -> jsstring -> js_result (option (list caption)).
Variable displayNameOf : jsstring -> js_result jsstring.
Variable generateContent : jsstring -> js_result jsstring.

(** On a body whose two fields are strings or absent, the handler is
    the one of the requests of strings. *)
Lemma generate_any_of_request req :
  generate_any getSubtitles displayNameOf generateContent (of_request req) =
  Some (generate getSubtitles displayNameOf generateContent req).
Proof.
  destruct req as [[[|u rl]|] [[|l ang]|]]; reflexivity.
Qed.

Lemma generate_from_shape youtubeUrl language :
  let (response, log) :=
    run (generate_from getSubtitles displayNameOf generateContent
           youtubeUrl language) in
  (status response = 400%N /\ log = []) \/
  (exists videoID,
     (status response = 404%N \/ status response = 500%N) /\
     log = [GetSubtitles videoID (js "en")]) \/
  (exists videoID prompt,
     (status response = 200%N \/ status response = 500%N) /\
     log = [GetSubtitles videoID (js "en"); GenerateContent prompt]).
Proof.
  unfold run, generate_from, bind, await, attempt.
  destruct (videoIDMatch youtubeUrl) as [videoID|]; [|left; now split].
  cbn [app].
  destruct (getSubtitles videoID (js "en")) as [[[|c captions]|]|e];
    cbn -[prompt transcript vttContent js];
    try (right; left; exists videoID; split; [auto | reflexivity]).
  destruct (displayNameOf _) as [languageName|e];
    cbn -[prompt transcript vttContent js];
    try (right; left; exists videoID; split; [auto | reflexivity]).
  destruct (generateContent _) as [text|e];
    cbn -[prompt transcript vttContent js];
    right; right; eexists videoID, _; split; try reflexivity; auto.
Qed.

(** X6.  Every run of the route, whatever JSON values the body holds,
    ends in one of four ways.  The handler throws outside its [try],
    before any call, and sends nothing: this is so exactly when there
    is no body, or when the link is truthy and not a string (with a
    truthy language).  Or: status 400 and no call; status 404 or 500
    after the fetch of the English captions alone; status 200 or 500
    after that fetch and one translation request.  There is never a
    translation without the fetch before it, never a second
    translation, never a fetch of captions in another language. *)
Theorem generate_run_shape received :
  match generate_any getSubtitles displayNameOf generateContent received with
  | None =>
      received = NoBody \/
      exists shown language,
        received = Fields (Other true shown) language /\ falsy language = false
  | Some handler =>
      (received <> NoBody /\
       forall shown language,
         received = Fields (Other true shown) language -> falsy language = true) /\
      let (response, log) := run handler in
      (status response = 400%N /\ log = []) \/
      (exists videoID,
         (status response = 404%N \/ status response = 500%N) /\
         log = [GetSubtitles videoID (js "en")]) \/
      (exists videoID prompt,
         (status response = 200%N \/ status response = 500%N) /\
         log = [GetSubtitles videoID (js "en"); GenerateContent prompt])
  end.
Proof.
  destruct received as [|youtubeUrl language]; cbn [generate_any].
  - now left.
  - destruct (falsy youtubeUrl || falsy language) eqn:E.
    + split; [|left; now split]. split; [discriminate|].
      intros shown l [= -> ->]. exact E.
    + apply orb_false_elim in E. destruct E as [Hu Hl].
      destruct youtubeUrl as [|u|[|] shown]; cbn in Hu; try discriminate.
      * split; [|apply generate_from_shape]. split; discriminate.
      * right. now exists shown, language.
Qed.

End AnyBody.
